(** * A shallow embedding of scripts/fetch-activity.py

    The script fetches GitHub activity of one user, aggregates it into
    per-repository commit counts, a 12-week histogram and a list of
    GitHub Pages sites, and writes the summary as JSON.

    Modelling choices:
    - the remote API is a [Server]: a function from the request (endpoint,
      query parameters, page number) to the response; a response is a page
      of records, an [HTTPError] (HTTP error status) or a connection-level
      failure (a [URLError] that is not an [HTTPError]);
    - the [while True] pagination loops are run with fuel; [None] means the
      fuel ran out (the loop had not stopped yet);
    - an exception that escapes [main] is the [Raised] case of [result];
    - instants are integers counting microseconds since the epoch, the
      resolution of Python's [datetime]; [timedelta.total_seconds() /
      week_seconds] followed by [int] is the exact quotient truncated
      toward zero ([Z.quot]); the double rounding errors of the float
      division are far below the distance 1/(604800*10^6) of a quotient of
      microsecond counts to the next integer at the ages involved. *)

From Stdlib Require Import ZArith List String Ascii Bool Lia Sorted Permutation.
Import ListNotations.

(** ** Python-level helpers *)

Inductive exn : Type :=
| URLError      (* connection failure: a URLError that is not an HTTPError *)
| ValueError.   (* datetime.fromisoformat on a malformed timestamp *)

Inductive result (A : Type) : Type :=
| Ok (a : A)
| Raised (e : exn).
Arguments Ok {A} a.
Arguments Raised {A} e.

Definition rbind {A B} (r : result A) (f : A -> result B) : result B :=
  match r with Ok a => f a | Raised e => Raised e end.

Definition obind {A B} (o : option A) (f : A -> option B) : option B :=
  match o with Some a => f a | None => None end.

(** One response of [api_get]: the decoded JSON list, or the exception
    raised by [urlopen]. *)
Inductive response (A : Type) : Type :=
| RespPage (records : list A)
| RespHTTPError (status : Z)
| RespURLError.
Arguments RespPage {A} records.
Arguments RespHTTPError {A} status.
Arguments RespURLError {A}.

(** [str.lower()] on the ASCII characters GitHub allows in names. *)
Definition lower_char (c : ascii) : ascii :=
  let n := nat_of_ascii c in
  if (65 <=? n)%nat && (n <=? 90)%nat then ascii_of_nat (n + 32) else c.

Fixpoint lower (s : string) : string :=
  match s with
  | EmptyString => EmptyString
  | String c s' => String (lower_char c) (lower s')
  end.

(** [s.split(sep)] for a one-character separator. *)
Fixpoint split_on (sep : ascii) (s : string) : list string :=
  match s with
  | EmptyString => [EmptyString]
  | String c s' =>
      let parts := split_on sep s' in
      if Ascii.eqb c sep then EmptyString :: parts
      else match parts with
           | p :: ps => String c p :: ps
           | [] => [String c EmptyString]
           end
  end.

(** [s.replace("Z", "+00:00")]. *)
Fixpoint replace_Z (s : string) : string :=
  match s with
  | EmptyString => EmptyString
  | String c s' =>
      if Ascii.eqb c "Z"%char then ("+00:00" ++ replace_Z s')%string
      else String c (replace_Z s')
  end.

(** ** Timestamps *)

Definition digit (c : ascii) : option Z :=
  let n := (Z.of_nat (nat_of_ascii c) - 48)%Z in
  if (0 <=? n)%Z && (n <=? 9)%Z then Some n else None.

Definition is_leap (y : Z) : bool :=
  ((Z.modulo y 4 =? 0) && negb (Z.modulo y 100 =? 0) || (Z.modulo y 400 =? 0))%Z.

Definition days_in_month (y m : Z) : Z :=
  if (m =? 2)%Z then (if is_leap y then 29 else 28)%Z
  else if (m =? 4)%Z || (m =? 6)%Z || (m =? 9)%Z || (m =? 11)%Z then 30%Z
  else 31%Z.

(** Days from 1970-01-01 to the proleptic Gregorian date y-m-d. *)
Definition days_from_civil (y m d : Z) : Z :=
  let y' := if (m <=? 2)%Z then (y - 1)%Z else y in
  let era := Z.div y' 400 in
  let yoe := (y' - era * 400)%Z in
  let mp := if (2 <? m)%Z then (m - 3)%Z else (m + 9)%Z in
  let doy := ((153 * mp + 2) / 5 + d - 1)%Z in
  let doe := (yoe * 365 + yoe / 4 - yoe / 100 + doy)%Z in
  (era * 146097 + doe - 719468)%Z.

Definition us_per_second : Z := 1000000.

(** [datetime.fromisoformat] on the form [YYYY-MM-DDTHH:MM:SS+00:00], the
    form GitHub's timestamps take after [replace("Z", "+00:00")]; [None]
    is the [ValueError] it raises on a malformed or out-of-range date.
    The instant is returned in microseconds since the epoch. *)
Definition fromisoformat (s : string) : option Z :=
  match list_ascii_of_string s with
  | [y1; y2; y3; y4; c1; m1; m2; c2; d1; d2; cT; h1; h2; c3; i1; i2; c4;
     s1; s2; p; z1; z2; c5; z3; z4] =>
      if Ascii.eqb c1 "-" && Ascii.eqb c2 "-" && Ascii.eqb cT "T"
         && Ascii.eqb c3 ":" && Ascii.eqb c4 ":" && Ascii.eqb p "+"
         && Ascii.eqb z1 "0" && Ascii.eqb z2 "0" && Ascii.eqb c5 ":"
         && Ascii.eqb z3 "0" && Ascii.eqb z4 "0"
      then
        obind (digit y1) (fun a1 => obind (digit y2) (fun a2 =>
        obind (digit y3) (fun a3 => obind (digit y4) (fun a4 =>
        obind (digit m1) (fun b1 => obind (digit m2) (fun b2 =>
        obind (digit d1) (fun e1 => obind (digit d2) (fun e2 =>
        obind (digit h1) (fun g1 => obind (digit h2) (fun g2 =>
        obind (digit i1) (fun j1 => obind (digit i2) (fun j2 =>
        obind (digit s1) (fun k1 => obind (digit s2) (fun k2 =>
          let y := (a1 * 1000 + a2 * 100 + a3 * 10 + a4)%Z in
          let m := (b1 * 10 + b2)%Z in
          let d := (e1 * 10 + e2)%Z in
          let hh := (g1 * 10 + g2)%Z in
          let mi := (j1 * 10 + j2)%Z in
          let ss := (k1 * 10 + k2)%Z in
          if (1 <=? y)%Z && (1 <=? m)%Z && (m <=? 12)%Z && (1 <=? d)%Z
             && (d <=? days_in_month y m)%Z && (hh <? 24)%Z && (mi <? 60)%Z
             && (ss <? 60)%Z
          then Some (((days_from_civil y m d * 86400 + hh * 3600 + mi * 60
                       + ss) * us_per_second)%Z)
          else None))))))))))))))
      else None
  | _ => None
  end.

(** ** Constants *)

Definition GITHUB_USER : string := "radaiko".
Definition WEEKS : nat := 12.
Definition PER_PAGE : nat := 100.
Definition week_seconds : Z := (7 * 24 * 60 * 60)%Z.
Definition week_us : Z := (week_seconds * us_per_second)%Z.

(** ** Data model *)

(** An entry of [/user/repos]; a missing or [null] [has_pages], [fork]
    or [private] is falsy, a missing [description] or [language] is [None]. *)
Record RepoInfo := mkRepoInfo {
  ri_full_name : string;
  ri_name : string;
  ri_owner_login : string;
  ri_private : bool;
  ri_has_pages : bool;
  ri_fork : bool;
  ri_description : option string;
  ri_language : option string
}.

(** An entry of [/repos/{full_name}/commits]: [commit.author.date]. *)
Record Commit := mkCommit { commit_author_date : string }.

(** An entry of [/users/{name}/events]; [ev_payload_commits] is
    [payload.commits], [None] when [payload] or [commits] is missing. *)
Record Event := mkEvent {
  ev_type : string;
  ev_created_at : string;
  ev_repo_name : string;
  ev_payload_commits : option (list string)
}.

Record RepoSummary := mkRepoSummary {
  fullName : string;
  name : string;
  owner : string;
  isOwn : bool;
  commits : nat;
  lastActivity : string
}.

Record PagesSite := mkPagesSite {
  site_name : string;
  url : string;
  description : string;
  language : string
}.

(** The JSON document written to [data/activity.json]; [generatedAt] is
    [now.isoformat()], kept here as the instant it prints. *)
Record Output := mkOutput {
  generatedAt : Z;
  repos : list RepoSummary;
  weeklyCommits : list nat;
  totalCommits : nat;
  activeWeeks : nat;
  pages : list PagesSite
}.

(** The remote API as seen by [api_get]. The commits endpoint is queried
    with the repository's full name, the [since] instant (the cutoff,
    sent as its [isoformat()]) and the page number. *)
Record Server := mkServer {
  srv_user_repos : nat -> response RepoInfo;
  srv_repo_commits : string -> Z -> nat -> response Commit;
  srv_user_events : nat -> response Event
}.

(** ** Pagination *)

(** The [while True] loop of [fetch_all_repos] and [fetch_repo_commits],
    from page [page_num] with the records [acc] gathered so far. Only
    [HTTPError] is caught. *)
Fixpoint fetch_pages {A} (api : nat -> response A) (fuel page_num : nat)
    (acc : list A) : option (result (list A)) :=
  match fuel with
  | O => None
  | S fuel' =>
      match api page_num with
      | RespHTTPError _ => Some (Ok acc)
      | RespURLError => Some (Raised URLError)
      | RespPage [] => Some (Ok acc)
      | RespPage recs =>
          if (List.length recs <? PER_PAGE)%nat then Some (Ok (acc ++ recs))
          else fetch_pages api fuel' (S page_num) (acc ++ recs)
      end
  end.

Definition fetch_all_repos (srv : Server) (fuel : nat)
    : option (result (list RepoInfo)) :=
  fetch_pages (srv_user_repos srv) fuel 1 [].

Definition fetch_repo_commits (srv : Server) (fuel : nat)
    (repo_full_name : string) (since : Z) : option (result (list Commit)) :=
  fetch_pages (srv_repo_commits srv repo_full_name since) fuel 1 [].

(** The [for page in range(1, 4)] loop of [fetch_public_events]. *)
Fixpoint fetch_events_loop {A} (api : nat -> response A) (pages_left : list nat)
    (acc : list A) : result (list A) :=
  match pages_left with
  | [] => Ok acc
  | page :: rest =>
      match api page with
      | RespHTTPError _ => Ok acc
      | RespURLError => Raised URLError
      | RespPage [] => Ok acc
      | RespPage evs => fetch_events_loop api rest (acc ++ evs)
      end
  end.

Definition fetch_public_events (srv : Server) : result (list Event) :=
  fetch_events_loop (srv_user_events srv) [1; 2; 3]%nat [].

(** ** Aggregation *)

(** A Python [dict] keyed by full repository name: an association list in
    insertion order; assigning to an existing key keeps its position. *)
Fixpoint dict_get {V} (k : string) (d : list (string * V)) : option V :=
  match d with
  | [] => None
  | (k', v) :: d' => if String.eqb k k' then Some v else dict_get k d'
  end.

Fixpoint dict_set {V} (k : string) (v : V) (d : list (string * V))
    : list (string * V) :=
  match d with
  | [] => [(k, v)]
  | (k', v') :: d' =>
      if String.eqb k k' then (k, v) :: d' else (k', v') :: dict_set k v d'
  end.

(** [int(age_seconds / week_seconds)]: [int] truncates toward zero. *)
Definition week_index (now t : Z) : Z := Z.quot (now - t) week_us.

(** The slot [WEEKS - 1 - week_index] incremented when
    [0 <= week_index < WEEKS], and [None] when the guard fails. *)
Definition bucket_of (now t : Z) : option nat :=
  let wi := week_index now t in
  if (0 <=? wi)%Z && (wi <? Z.of_nat WEEKS)%Z
  then Some (WEEKS - 1 - Z.to_nat wi)%nat else None.

(** [l[i] += n]; the guard above keeps [i] inside the 12 slots. *)
Fixpoint add_at (i n : nat) (l : list nat) : list nat :=
  match l, i with
  | [], _ => []
  | x :: t, O => (x + n)%nat :: t
  | x :: t, S i' => x :: add_at i' n t
  end.

Definition bump (now t : Z) (n : nat) (w : list nat) : list nat :=
  match bucket_of now t with
  | Some i => add_at i n w
  | None => w
  end.

(** [max] over strings: the first of the largest. *)
Fixpoint str_max (cur : string) (l : list string) : string :=
  match l with
  | [] => cur
  | x :: t => str_max (if String.ltb cur x then x else cur) t
  end.

(** The mutable locals of [main]: [repos], [weekly_commits], [pages_sites]. *)
Record Acc := mkAcc {
  acc_repos : list (string * RepoSummary);
  acc_weekly : list nat;
  acc_pages : list PagesSite
}.

Definition default_str (o : option string) : string :=
  match o with Some s => s | None => EmptyString end.

(** "Discover GitHub Pages sites". *)
Definition discover_pages (ri : RepoInfo) (ps : list PagesSite)
    : list PagesSite :=
  if ri_has_pages ri && negb (ri_fork ri) then
    if negb (String.eqb (ri_name ri) (GITHUB_USER ++ ".github.io"))
    then ps ++ [mkPagesSite (ri_name ri)
                  ("https://" ++ GITHUB_USER ++ ".github.io/" ++ ri_name ri ++ "/")
                  (default_str (ri_description ri))
                  (default_str (ri_language ri))]
    else ps
  else ps.

(** "Bucket commits into weeks". *)
Fixpoint bucket_commits (now : Z) (cs : list Commit) (w : list nat)
    : result (list nat) :=
  match cs with
  | [] => Ok w
  | c :: cs' =>
      match fromisoformat (replace_Z (commit_author_date c)) with
      | None => Raised ValueError
      | Some t => bucket_commits now cs' (bump now t 1 w)
      end
  end.

(** The body of [for repo_info in all_repos] (authenticated path). *)
Fixpoint auth_loop (srv : Server) (fuel : nat) (now cutoff : Z)
    (all_repos : list RepoInfo) (st : Acc) : option (result Acc) :=
  match all_repos with
  | [] => Some (Ok st)
  | ri :: rest =>
      let full_name := ri_full_name ri in
      let short_name := ri_name ri in
      let own := ri_owner_login ri in
      let ps := discover_pages ri (acc_pages st) in
      match fetch_repo_commits srv fuel full_name cutoff with
      | None => None
      | Some (Raised e) => Some (Raised e)
      | Some (Ok []) =>
          auth_loop srv fuel now cutoff rest (mkAcc (acc_repos st) (acc_weekly st) ps)
      | Some (Ok ((c :: cs) as cms)) =>
          let last_activity :=
            str_max (commit_author_date c) (map commit_author_date cs) in
          let rs := dict_set full_name
                      (mkRepoSummary full_name short_name own
                         (String.eqb own GITHUB_USER) (List.length cms)
                         last_activity)
                      (acc_repos st) in
          match bucket_commits now cms (acc_weekly st) with
          | Raised e => Some (Raised e)
          | Ok w => auth_loop srv fuel now cutoff rest (mkAcc rs w ps)
          end
      end
  end.

(** [repos[repo_name]] created on first sight, then [commits += count] and
    [lastActivity] advanced when [created_at] compares greater. *)
Definition record_push (rs : list (string * RepoSummary))
    (repo_name short_name own : string) (commit_count : nat)
    (created_at : string) : list (string * RepoSummary) :=
  let rs1 :=
    match dict_get repo_name rs with
    | Some _ => rs
    | None =>
        dict_set repo_name
          (mkRepoSummary repo_name short_name own (String.eqb own GITHUB_USER)
             0 created_at) rs
    end in
  match dict_get repo_name rs1 with
  | Some r =>
      let r1 := mkRepoSummary (fullName r) (name r) (owner r) (isOwn r)
                  (commits r + commit_count) (lastActivity r) in
      let r2 := if String.ltb (lastActivity r1) created_at
                then mkRepoSummary (fullName r1) (name r1) (owner r1) (isOwn r1)
                       (commits r1) created_at
                else r1 in
      dict_set repo_name r2 rs1
  | None => rs1
  end.

(** The body of [for event in events] (unauthenticated fallback). *)
Definition fallback_step (now cutoff : Z) (ev : Event) (st : Acc)
    : result Acc :=
  if negb (String.eqb (ev_type ev) "PushEvent") then Ok st else
  match fromisoformat (replace_Z (ev_created_at ev)) with
  | None => Raised ValueError
  | Some created =>
      if (created <? cutoff)%Z then Ok st else
      let repo_name := ev_repo_name ev in
      let parts := split_on "/" repo_name in
      let short_name := last parts EmptyString in
      let own := hd EmptyString parts in
      let commit_count0 :=
        List.length (match ev_payload_commits ev with
                     | Some l => l | None => [] end) in
      let commit_count := if (commit_count0 =? 0)%nat then 1%nat
                          else commit_count0 in
      Ok (mkAcc (record_push (acc_repos st) repo_name short_name own
                   commit_count (ev_created_at ev))
                (bump now created commit_count (acc_weekly st))
                (acc_pages st))
  end.

Fixpoint fallback_loop (now cutoff : Z) (evs : list Event) (st : Acc)
    : result Acc :=
  match evs with
  | [] => Ok st
  | ev :: rest => rbind (fallback_step now cutoff ev st) (fallback_loop now cutoff rest)
  end.

(** [sorted(..., key=lambda r: r["commits"], reverse=True)]: the stable
    sort, as an insertion sort that puts an element before the first one
    of smaller or equal key (it came earlier in the input). *)
Fixpoint insert_repo (r : RepoSummary) (l : list RepoSummary)
    : list RepoSummary :=
  match l with
  | [] => [r]
  | y :: t =>
      if (commits y <=? commits r)%nat then r :: y :: t else y :: insert_repo r t
  end.

Fixpoint sort_repos (l : list RepoSummary) : list RepoSummary :=
  match l with
  | [] => []
  | r :: t => insert_repo r (sort_repos t)
  end.

(** [pages_sites.sort(key=lambda p: p["name"].lower())], stable. *)
Fixpoint insert_site (p : PagesSite) (l : list PagesSite) : list PagesSite :=
  match l with
  | [] => [p]
  | y :: t =>
      if String.leb (lower (site_name p)) (lower (site_name y))
      then p :: y :: t else y :: insert_site p t
  end.

Fixpoint sort_pages (l : list PagesSite) : list PagesSite :=
  match l with
  | [] => []
  | p :: t => insert_site p (sort_pages t)
  end.

Definition finish (now : Z) (st : Acc) : Output :=
  let w := acc_weekly st in
  mkOutput now (sort_repos (map snd (acc_repos st))) w (list_sum w)
    (List.length (filter (fun x => (0 <? x)%nat) w)) (sort_pages (acc_pages st)).

Definition cutoff_of (now : Z) : Z := (now - Z.of_nat WEEKS * week_us)%Z.

(** [main] with [ACTIVITY_TOKEN] = [token] and [datetime.now] = [now];
    the result is the document it writes. *)
Definition main (token : string) (now : Z) (srv : Server) (fuel : nat)
    : option (result Output) :=
  let cutoff := cutoff_of now in
  let init := mkAcc [] (repeat 0%nat WEEKS) [] in
  let final :=
    if negb (String.eqb token EmptyString) then
      match fetch_all_repos srv fuel with
      | None => None
      | Some (Raised e) => Some (Raised e)
      | Some (Ok all_repos) => auth_loop srv fuel now cutoff all_repos init
      end
    else Some (rbind (fetch_public_events srv)
                 (fun evs => fallback_loop now cutoff evs init)) in
  match final with
  | None => None
  | Some r => Some (rbind r (fun st => Ok (finish now st)))
  end.

(** Sum of the [commits] fields of the dict's values. *)
Definition dict_total (d : list (string * RepoSummary)) : nat :=
  list_sum (map (fun kv => commits (snd kv)) d).

Definition commits_of (k : string) (d : list (string * RepoSummary)) : nat :=
  match dict_get k d with Some r => commits r | None => 0%nat end.

(** The claims' own reading of the bucket formula,
    [11 - floor(age_in_seconds / 604800)], with the index discarded
    outside [[0, 11]]. *)
Definition spec_bucket_floor (now t : Z) : option Z :=
  let b := (11 - Z.div (now - t) week_us)%Z in
  if (0 <=? b)%Z && (b <=? 11)%Z then Some b else None.

(** Pages [1 .. length pre] of [api] are the full pages [pre]. *)
Definition full_prefix {A} (api : nat -> response A) (pre : list (list A)) : Prop :=
  forall i, (i < List.length pre)%nat ->
    api (S i) = RespPage (nth i pre []) /\ (PER_PAGE <= List.length (nth i pre []))%nat.

(** Pages [1 .. length pre] of [api] are the nonempty pages [pre]. *)
Definition nonempty_prefix {A} (api : nat -> response A) (pre : list (list A)) : Prop :=
  forall i, (i < List.length pre)%nat ->
    api (S i) = RespPage (nth i pre []) /\ nth i pre [] <> [].

(** ** Fixtures *)

Definition repo_desc (a b : RepoSummary) : Prop := (commits b <= commits a)%nat.

Definition site_le (a b : PagesSite) : Prop :=
  String.leb (lower (site_name a)) (lower (site_name b)) = true.

(** The [now] of the example runs. *)
Definition now_ex : Z := 1717200000000000%Z.  (* 2024-06-01T00:00:00Z *)

Definition repo_x : RepoInfo :=
  mkRepoInfo "a/x" "x" "a" false false false None None.

(** A server listing repository "a/x" with one commit dated [date]. *)
Definition srv_one_commit (date : string) : Server :=
  mkServer
    (fun p => if (p =? 1)%nat then RespPage [repo_x] else RespPage [])
    (fun _ _ p => if (p =? 1)%nat then RespPage [mkCommit date] else RespPage [])
    (fun _ => RespPage []).

(** The fixture of the spec: repository "a/x" with 3 commits 2 weeks
    (and a day) ago, "a/y" with 1 commit 10 weeks (and a day) ago. *)
Definition repo_y : RepoInfo :=
  mkRepoInfo "a/y" "y" "a" false false false None None.

Definition srv_fixture : Server :=
  mkServer
    (fun p => if (p =? 1)%nat then RespPage [repo_x; repo_y] else RespPage [])
    (fun fn _ p =>
       if (p =? 1)%nat then
         if String.eqb fn "a/x"
         then RespPage (repeat (mkCommit "2024-05-17T00:00:00Z") 3)
         else RespPage [mkCommit "2024-03-22T00:00:00Z"]
       else RespPage [])
    (fun _ => RespPage []).

Definition out_default : Output := mkOutput 0 [] [] 0 0 [].

Definition out_fixture : Output :=
  match main "token" now_ex srv_fixture 5 with
  | Some (Ok o) => o
  | _ => out_default
  end.

(** A server that cannot be reached. *)
Definition srv_unreachable : Server :=
  mkServer (fun _ => RespURLError) (fun _ _ _ => RespURLError)
    (fun _ => RespURLError).

(** A server whose repository listing has one full page, then fails. *)
Definition srv_full_then_error : Server :=
  mkServer
    (fun p => if (p =? 1)%nat then RespPage (repeat repo_x 100)
              else RespHTTPError 502)
    (fun _ _ _ => RespHTTPError 502)
    (fun p => if (p =? 1)%nat then RespPage [mkEvent "PushEvent"
                "2024-05-31T00:00:00Z" "radaiko/site" None]
              else RespHTTPError 502).

(** A push event of the user. *)
Definition push_ev : Event :=
  mkEvent "PushEvent" "2024-05-31T00:00:00Z" "radaiko/site" None.

Definition srv_short_pages : Server :=
  mkServer (fun _ => RespPage []) (fun _ _ _ => RespPage [])
    (fun p => if (p <=? 2)%nat then RespPage (repeat push_ev 50) else RespPage []).

(** A server whose repository listing only returns full pages. *)
Definition srv_endless : Server :=
  mkServer (fun _ => RespPage (repeat repo_x 100)) (fun _ _ _ => RespPage [])
    (fun _ => RespPage []).

Definition push_at (created_at : string) : Event :=
  mkEvent "PushEvent" created_at "radaiko/site" None.

Definition srv_events (evs : list Event) : Server :=
  mkServer (fun _ => RespPage []) (fun _ _ _ => RespPage [])
    (fun p => if (p =? 1)%nat then RespPage evs else RespPage []).

Definition acc_init : Acc := mkAcc [] (repeat 0%nat WEEKS) [].

(** A Pages entry that comes from a listed repository with Pages enabled,
    not a fork, and not the user's own [radaiko.github.io] site. *)
Definition site_from (all_repos : list RepoInfo) (p : PagesSite) : Prop :=
  exists ri, In ri all_repos /\ ri_has_pages ri = true /\ ri_fork ri = false /\
             ri_name ri <> "radaiko.github.io"%string /\ site_name p = ri_name ri.

(** Two sites out of order in the listing, a fork and the user site. *)
Definition repo_pages (n : string) (fork : bool) : RepoInfo :=
  mkRepoInfo ("radaiko/" ++ n) n "radaiko" false true fork (Some "d"%string) None.

Definition srv_pages : Server :=
  mkServer
    (fun p => if (p =? 1)%nat then
                RespPage [repo_pages "Zeta" false; repo_pages "radaiko.github.io" false;
                          repo_pages "forked" true; repo_pages "alpha" false]
              else RespPage [])
    (fun _ _ _ => RespPage []) (fun _ => RespPage []).

Definition out_pages : Output :=
  match main "token" now_ex srv_pages 5 with Some (Ok o) => o | _ => out_default end.

Definition own_ok (r : RepoSummary) : Prop :=
  isOwn r = String.eqb (owner r) GITHUB_USER.

Definition srv_mixed_owners : Server :=
  srv_events [mkEvent "PushEvent" "2024-05-31T00:00:00Z" "radaiko/site" None;
              mkEvent "PushEvent" "2024-05-30T00:00:00Z" "other/lib" (Some ["c1"; "c2"]%string)].

Definition out_mixed : Output :=
  match main EmptyString now_ex srv_mixed_owners 5 with
  | Some (Ok o) => o | _ => out_default end.

(** ** Event and listing predicates of [main] *)

(** [event.get("type") != "PushEvent"] fails. *)
Definition is_push (ev : Event) : bool := String.eqb (ev_type ev) "PushEvent".

(** [datetime.fromisoformat(event["created_at"].replace("Z", "+00:00"))]. *)
Definition event_time (ev : Event) : option Z :=
  fromisoformat (replace_Z (ev_created_at ev)).

(** A push event whose time parses and is not before the cutoff: the
    fallback loop records it. *)
Definition counted (cutoff : Z) (ev : Event) : bool :=
  is_push ev &&
  match event_time ev with Some t => negb (t <? cutoff)%Z | None => false end.

(** A push event the fallback loop looks at past the type test: the
    others are skipped by [continue] before anything is parsed. *)
Definition not_skipped (cutoff : Z) (ev : Event) : bool :=
  is_push ev &&
  match event_time ev with Some t => negb (t <? cutoff)%Z | None => true end.

(** [commit_count] of a push event: the length of [payload.commits],
    and 1 when that is 0. *)
Definition push_count (ev : Event) : nat :=
  let c := List.length (match ev_payload_commits ev with
                        | Some l => l | None => [] end) in
  if (c =? 0)%nat then 1%nat else c.

(** The event's time falls in slot [i] of [weekly_commits]. *)
Definition event_in_slot (now : Z) (i : nat) (ev : Event) : bool :=
  match event_time ev with
  | Some t => match bucket_of now t with Some j => (j =? i)%nat | None => false end
  | None => false
  end.

(** The commit's date falls in slot [i] of [weekly_commits]. *)
Definition commit_in_slot (now : Z) (i : nat) (c : Commit) : bool :=
  match fromisoformat (replace_Z (commit_author_date c)) with
  | Some t => match bucket_of now t with Some j => (j =? i)%nat | None => false end
  | None => false
  end.

(** The listed repository gets a Pages entry. *)
Definition has_site (ri : RepoInfo) : bool :=
  ri_has_pages ri && negb (ri_fork ri) &&
  negb (String.eqb (ri_name ri) (GITHUB_USER ++ ".github.io")).

(** The Pages entry built for a listed repository. *)
Definition site_of (ri : RepoInfo) : PagesSite :=
  mkPagesSite (ri_name ri)
    ("https://" ++ GITHUB_USER ++ ".github.io/" ++ ri_name ri ++ "/")
    (default_str (ri_description ri)) (default_str (ri_language ri)).

(** The commits [fetch_repo_commits] returns for a listed repository. *)
Definition repo_commits (srv : Server) (fuel : nat) (cutoff : Z)
    (ri : RepoInfo) : list Commit :=
  match fetch_repo_commits srv fuel (ri_full_name ri) cutoff with
  | Some (Ok cms) => cms
  | _ => []
  end.

(** What the authenticated loop stores for a listed repository: its
    commit list is nonempty, the names come from the listing, [commits] is
    the number of commits and [lastActivity] is the largest commit date. *)
Definition auth_entry (srv : Server) (fuel : nat) (cutoff : Z) (ri : RepoInfo)
    (r : RepoSummary) : Prop :=
  let cms := repo_commits srv fuel cutoff ri in
  cms <> [] /\ fullName r = ri_full_name ri /\ name r = ri_name ri /\
  owner r = ri_owner_login ri /\ commits r = List.length cms /\
  In (lastActivity r) (map commit_author_date cms) /\
  (forall c, In c cms -> String.leb (commit_author_date c) (lastActivity r) = true).

(** The string holds no ['/']. *)
Definition no_slash (s : string) : Prop := ~ In "/"%char (list_ascii_of_string s).

(** Events of an unauthenticated run: a push to "radaiko/site", an event
    of another type with no valid date, a push with two commits to
    "other/lib", a second push to "radaiko/site" with three commits, and a
    push from before the window. *)
Definition evs_fallback : list Event :=
  [mkEvent "PushEvent" "2024-05-31T00:00:00Z" "radaiko/site" None;
   mkEvent "WatchEvent" "not a date" "radaiko/site" None;
   mkEvent "PushEvent" "2024-05-20T00:00:00Z" "other/lib" (Some ["c1"; "c2"]%string);
   mkEvent "PushEvent" "2024-05-30T12:00:00Z" "radaiko/site"
     (Some ["c3"; "c4"; "c5"]%string);
   mkEvent "PushEvent" "2023-01-01T00:00:00Z" "radaiko/old" None].

Definition out_fallback : Output :=
  match main EmptyString now_ex (srv_events evs_fallback) 5 with
  | Some (Ok o) => o | _ => out_default end.

Definition repo_default : RepoSummary := mkRepoSummary "" "" "" false 0 "".


(** ** General lemmas *)

Lemma dict_get_set_same {V} (k : string) (v : V) d :
  dict_get k (dict_set k v d) = Some v.
Proof.
  induction d as [|[k' v'] d IH]; simpl.
  - now rewrite String.eqb_refl.
  - destruct (String.eqb k k') eqn:E; simpl.
    + now rewrite String.eqb_refl.
    + now rewrite E.
Qed.

Lemma dict_total_set k v d :
  (dict_total (dict_set k v d) + commits_of k d = dict_total d + commits v)%nat.
Proof.
  unfold dict_total, commits_of.
  induction d as [|[k' v'] d IH]; simpl.
  - lia.
  - destruct (String.eqb k k') eqn:E; simpl.
    + lia.
    + lia.
Qed.

Lemma dict_set_forall (P : RepoSummary -> Prop) k v d :
  Forall (fun kv => P (snd kv)) d -> P v ->
  Forall (fun kv => P (snd kv)) (dict_set k v d).
Proof.
  induction d as [|[k' v'] d IH]; simpl; intros Hd Hv.
  - now constructor.
  - inversion Hd; subst.
    destruct (String.eqb k k'); constructor; auto.
Qed.

Lemma dict_get_forall (P : RepoSummary -> Prop) k d r :
  Forall (fun kv => P (snd kv)) d -> dict_get k d = Some r -> P r.
Proof.
  induction d as [|[k' v'] d IH]; simpl; intros Hd Hg; [discriminate|].
  inversion Hd; subst.
  destruct (String.eqb k k'); [now injection Hg as <-|auto].
Qed.

Lemma add_at_sum_le i n w : (list_sum (add_at i n w) <= list_sum w + n)%nat.
Proof.
  revert i; induction w as [|x w IH]; intros [|i]; simpl; try lia.
  specialize (IH i); lia.
Qed.

Lemma add_at_sum i n w :
  (i < List.length w)%nat -> list_sum (add_at i n w) = (list_sum w + n)%nat.
Proof.
  revert i; induction w as [|x w IH]; intros [|i] Hi; simpl in *; try lia.
  rewrite IH by lia; lia.
Qed.

Lemma add_at_length i n w : List.length (add_at i n w) = List.length w.
Proof.
  revert i; induction w as [|x w IH]; intros [|i]; simpl; auto.
Qed.

Lemma bump_sum_le now t n w : (list_sum (bump now t n w) <= list_sum w + n)%nat.
Proof.
  unfold bump; destruct (bucket_of now t); [apply add_at_sum_le|lia].
Qed.

Lemma bump_length now t n w : List.length (bump now t n w) = List.length w.
Proof.
  unfold bump; destruct (bucket_of now t); [apply add_at_length|reflexivity].
Qed.

Lemma bucket_of_range now t i : bucket_of now t = Some i -> (i < WEEKS)%nat.
Proof.
  assert (Hle : forall x, (WEEKS - 1 - x < WEEKS)%nat) by (intros; unfold WEEKS; lia).
  unfold bucket_of.
  destruct (_ && _); intros H; [|discriminate].
  replace i with (WEEKS - 1 - Z.to_nat (week_index now t))%nat by congruence.
  apply Hle.
Qed.

Lemma bucket_commits_sum now cs w w' :
  bucket_commits now cs w = Ok w' ->
  (list_sum w' <= list_sum w + List.length cs)%nat.
Proof.
  revert w; induction cs as [|c cs IH]; simpl; intros w H.
  - injection H as <-; lia.
  - destruct (fromisoformat (replace_Z (commit_author_date c))) as [t|];
      [|discriminate].
    specialize (IH _ H). pose proof (bump_sum_le now t 1 w). lia.
Qed.

Lemma bucket_commits_now_indep now now' cs w w' :
  (exists e, bucket_commits now cs w = Raised e) ->
  (exists e, bucket_commits now' cs w' = Raised e).
Proof.
  revert w w'; induction cs as [|c cs IH]; simpl; intros w w' [e H];
    [discriminate|].
  destruct (fromisoformat (replace_Z (commit_author_date c))); eauto.
Qed.

Lemma insert_repo_perm r l : Permutation (insert_repo r l) (r :: l).
Proof.
  induction l as [|y l IH]; simpl; [auto|].
  destruct (commits y <=? commits r)%nat; [auto|].
  rewrite IH; apply perm_swap.
Qed.

Lemma sort_repos_perm l : Permutation (sort_repos l) l.
Proof.
  induction l as [|r l IH]; simpl; [auto|].
  rewrite insert_repo_perm; auto.
Qed.

Lemma insert_site_perm p l : Permutation (insert_site p l) (p :: l).
Proof.
  induction l as [|y l IH]; simpl; [auto|].
  destruct (String.leb _ _); [auto|].
  rewrite IH; apply perm_swap.
Qed.

Lemma sort_pages_perm l : Permutation (sort_pages l) l.
Proof.
  induction l as [|p l IH]; simpl; [auto|].
  rewrite insert_site_perm; auto.
Qed.

Lemma insert_repo_sorted r l :
  LocallySorted repo_desc l -> LocallySorted repo_desc (insert_repo r l).
Proof.
  unfold repo_desc.
  induction 1 as [|y|y z l Hs IH Hyz]; simpl.
  - constructor.
  - destruct (commits y <=? commits r)%nat eqn:E.
    + apply Nat.leb_le in E; constructor; [constructor|exact E].
    + apply Nat.leb_gt in E; constructor; [constructor|lia].
  - destruct (commits y <=? commits r)%nat eqn:E.
    + apply Nat.leb_le in E; constructor; [constructor; assumption|exact E].
    + apply Nat.leb_gt in E. simpl in IH.
      destruct (commits z <=? commits r)%nat eqn:E2.
      * constructor; [exact IH|lia].
      * constructor; [exact IH|exact Hyz].
Qed.

Lemma sort_repos_sorted l : LocallySorted repo_desc (sort_repos l).
Proof.
  induction l as [|r l IH]; simpl; [constructor|].
  now apply insert_repo_sorted.
Qed.

Lemma leb_flip a b : String.leb a b = false -> String.leb b a = true.
Proof.
  intros H; destruct (String.leb_total a b); congruence.
Qed.

Lemma insert_site_sorted p l :
  LocallySorted site_le l -> LocallySorted site_le (insert_site p l).
Proof.
  unfold site_le.
  induction 1 as [|y|y z l Hs IH Hyz]; simpl.
  - constructor.
  - destruct (String.leb (lower (site_name p)) (lower (site_name y))) eqn:E.
    + constructor; [constructor|exact E].
    + constructor; [constructor|now apply leb_flip].
  - destruct (String.leb (lower (site_name p)) (lower (site_name y))) eqn:E.
    + constructor; [constructor; assumption|exact E].
    + simpl in IH.
      destruct (String.leb (lower (site_name p)) (lower (site_name z))) eqn:E2.
      * constructor; [exact IH|now apply leb_flip].
      * constructor; [exact IH|exact Hyz].
Qed.

Lemma sort_pages_sorted l : LocallySorted site_le (sort_pages l).
Proof.
  induction l as [|p l IH]; simpl; [constructor|].
  now apply insert_site_sorted.
Qed.

Lemma week_us_pos : (0 < week_us)%Z.
Proof. unfold week_us, week_seconds, us_per_second; lia. Qed.

Lemma bucket_of_quot now t :
  bucket_of now t =
  let q := Z.quot (now - t) week_us in
  if (0 <=? q)%Z && (q <? 12)%Z then Some (11 - Z.to_nat q)%nat else None.
Proof. reflexivity. Qed.

(** ** Claims *)

(** ** C1: the week bucket of a record *)

(** C1 (counterexample): a commit dated one second after [now] has age
    -1 s; [11 - floor(-1/604800)] is 12, outside [[0, 11]], so the claim's
    formula discards it, but [int()] truncates toward zero and the script
    counts it in bucket 11. *)
Lemma C1_future_commit_counted :
  spec_bucket_floor now_ex (now_ex + us_per_second)%Z = None /\
  bucket_of now_ex (now_ex + us_per_second)%Z = Some 11%nat /\
  match main "token" now_ex (srv_one_commit "2024-06-01T00:00:01Z") 5 with
  | Some (Ok o) => weeklyCommits o = [0; 0; 0; 0; 0; 0; 0; 0; 0; 0; 0; 1]%nat
  | _ => False
  end.
Proof. vm_compute. repeat split. Qed.

(** C1 (amended): the bucket of a record of age [a = now - t] is
    [11 - trunc(a / week)] ([int()] truncates toward zero), used only when
    it lies in [[0, 11]]; records 12 weeks old or older get no bucket; for
    non-negative ages it is the floor formula; records dated less than a
    week in the future land in bucket 11. *)
Theorem C1_bucket_index now t :
  (forall i, bucket_of now t = Some i ->
     (i <= 11)%nat /\ Z.of_nat i = (11 - Z.quot (now - t) week_us)%Z) /\
  (bucket_of now t = None <->
     (11 - Z.quot (now - t) week_us < 0 \/ 11 < 11 - Z.quot (now - t) week_us)%Z) /\
  ((Z.of_nat WEEKS * week_us <= now - t)%Z -> bucket_of now t = None) /\
  ((0 <= now - t)%Z ->
     option_map Z.of_nat (bucket_of now t) = spec_bucket_floor now t) /\
  ((- week_us < now - t < 0)%Z -> bucket_of now t = Some 11%nat).
Proof.
  pose proof week_us_pos as Hw.
  rewrite bucket_of_quot; cbv zeta.
  set (q := Z.quot (now - t) week_us).
  split; [|split; [|split; [|split]]].
  - intros i H. destruct ((0 <=? q)%Z && (q <? 12)%Z) eqn:E; [|discriminate].
    assert (Hi : i = (11 - Z.to_nat q)%nat) by congruence; subst i.
    apply andb_true_iff in E as [E1 E2].
    apply Z.leb_le in E1; apply Z.ltb_lt in E2; split; lia.
  - split.
    + destruct ((0 <=? q)%Z && (q <? 12)%Z) eqn:E; [discriminate|intros _].
      apply andb_false_iff in E as [E|E];
        [apply Z.leb_gt in E|apply Z.ltb_ge in E]; lia.
    + intros H. destruct ((0 <=? q)%Z && (q <? 12)%Z) eqn:E; [|reflexivity].
      apply andb_true_iff in E as [E1 E2].
      apply Z.leb_le in E1; apply Z.ltb_lt in E2; lia.
  - intros H. assert (12 <= q)%Z.
    { unfold q. rewrite Z.quot_div_nonneg by lia.
      apply Z.div_le_lower_bound; unfold WEEKS in H; lia. }
    destruct ((0 <=? q)%Z && (q <? 12)%Z) eqn:E; [|reflexivity].
    apply andb_true_iff in E as [_ E2]; apply Z.ltb_lt in E2; lia.
  - intros H. unfold spec_bucket_floor.
    unfold q; rewrite Z.quot_div_nonneg by lia; fold q.
    set (d := ((now - t) / week_us)%Z).
    assert (0 <= d)%Z by (apply Z.div_pos; lia).
    destruct ((0 <=? d)%Z && (d <? 12)%Z) eqn:E.
    + apply andb_true_iff in E as [E1 E2].
      apply Z.leb_le in E1; apply Z.ltb_lt in E2. cbn [option_map].
      replace ((0 <=? 11 - d)%Z && (11 - d <=? 11)%Z) with true; [f_equal; lia|].
      symmetry; apply andb_true_iff; split; [apply Z.leb_le|apply Z.leb_le]; lia.
    + apply andb_false_iff in E as [E|E];
        [apply Z.leb_gt in E; lia|apply Z.ltb_ge in E].
      cbn [option_map]. replace ((0 <=? 11 - d)%Z && (11 - d <=? 11)%Z) with false; [reflexivity|].
      symmetry; apply andb_false_iff; left; apply Z.leb_gt; lia.
  - intros H. assert (q = 0)%Z as ->.
    { unfold q. replace (now - t)%Z with (- (t - now))%Z by lia.
      rewrite Z.quot_opp_l by lia. rewrite Z.quot_small by lia. reflexivity. }
    reflexivity.
Qed.

(** C1 witness: a commit 15 days old, where the floor formula applies. *)
Lemma C1_bucket_index_witness :
  (0 <= now_ex - (now_ex - 15 * 86400 * us_per_second))%Z /\
  option_map Z.of_nat (bucket_of now_ex (now_ex - 15 * 86400 * us_per_second)%Z)
  = spec_bucket_floor now_ex (now_ex - 15 * 86400 * us_per_second)%Z.
Proof.
  split; [vm_compute; discriminate|].
  apply (proj1 (proj2 (proj2 (proj2
           (C1_bucket_index now_ex (now_ex - 15 * 86400 * us_per_second)%Z))))).
  vm_compute; discriminate.
Defined.

(** ** C2: histogram total against per-repository counts *)

Lemma dict_get_notin {V} k (d : list (string * V)) :
  ~ In k (map fst d) -> dict_get k d = None.
Proof.
  induction d as [|[k' v'] d IH]; simpl; intros H; [reflexivity|].
  destruct (String.eqb k k') eqn:E.
  - apply String.eqb_eq in E; subst; tauto.
  - apply IH; tauto.
Qed.

Lemma dict_set_keys {V} k (v : V) d k' :
  In k' (map fst (dict_set k v d)) -> k' = k \/ In k' (map fst d).
Proof.
  induction d as [|[k0 v0] d IH]; simpl; intros H.
  - destruct H as [H|H]; [left; auto|contradiction].
  - destruct (String.eqb k k0) eqn:E; simpl in H.
    + apply String.eqb_eq in E; subst.
      destruct H as [H|H]; [left; auto|right; right; exact H].
    + destruct H as [H|H]; [right; left; exact H|].
      destruct (IH H) as [H'|H']; [left; exact H'|right; right; exact H'].
Qed.

Lemma record_push_total rs repo_name short_name own n created_at :
  dict_total (record_push rs repo_name short_name own n created_at)
  = (dict_total rs + n)%nat.
Proof.
  unfold record_push.
  destruct (dict_get repo_name rs) as [r|] eqn:G.
  - rewrite G.
    pose proof (dict_total_set repo_name
      (if String.ltb (lastActivity r) created_at
       then mkRepoSummary (fullName r) (name r) (owner r) (isOwn r)
              (commits r + n) created_at
       else mkRepoSummary (fullName r) (name r) (owner r) (isOwn r)
              (commits r + n) (lastActivity r)) rs) as Ht.
    unfold commits_of in Ht; rewrite G in Ht; simpl in Ht.
    simpl; destruct (String.ltb (lastActivity r) created_at); simpl in *; lia.
  - rewrite dict_get_set_same.
    set (r0 := mkRepoSummary repo_name short_name own
                 (String.eqb own GITHUB_USER) 0 created_at).
    pose proof (dict_total_set repo_name r0 rs) as H0.
    unfold commits_of in H0; rewrite G in H0; simpl in H0.
    pose proof (dict_total_set repo_name
      (if String.ltb (lastActivity r0) created_at
       then mkRepoSummary (fullName r0) (name r0) (owner r0) (isOwn r0)
              (commits r0 + n) created_at
       else mkRepoSummary (fullName r0) (name r0) (owner r0) (isOwn r0)
              (commits r0 + n) (lastActivity r0)) (dict_set repo_name r0 rs)) as H1.
    unfold commits_of in H1; rewrite dict_get_set_same in H1.
    unfold r0 in *; simpl in *.
    destruct (String.ltb created_at created_at); simpl in *; lia.
Qed.

Lemma auth_loop_sum srv fuel now cutoff all_repos st st' :
  NoDup (map ri_full_name all_repos) ->
  (forall k, In k (map fst (acc_repos st)) -> ~ In k (map ri_full_name all_repos)) ->
  (list_sum (acc_weekly st) <= dict_total (acc_repos st))%nat ->
  auth_loop srv fuel now cutoff all_repos st = Some (Ok st') ->
  (list_sum (acc_weekly st') <= dict_total (acc_repos st'))%nat.
Proof.
  revert st; induction all_repos as [|ri rest IH]; simpl; intros st Hnd Hk Hs H.
  - now injection H as <-.
  - inversion Hnd as [|? ? Hnin Hnd']; subst.
    destruct (fetch_repo_commits srv fuel (ri_full_name ri) cutoff)
      as [[[|c cs]|e]|]; try discriminate.
    + refine (IH (mkAcc (acc_repos st) (acc_weekly st)
                      (discover_pages ri (acc_pages st))) Hnd' _ Hs H).
      intros k Hin; specialize (Hk k Hin); simpl in Hk; tauto.
    + destruct (bucket_commits now (c :: cs) (acc_weekly st)) as [w|e] eqn:B;
        [|discriminate].
      refine (IH _ Hnd' _ _ H); simpl.
      * intros k Hin. apply dict_set_keys in Hin as [->|Hin]; [exact Hnin|].
        specialize (Hk k Hin); simpl in Hk; tauto.
      * apply bucket_commits_sum in B.
        pose proof (dict_total_set (ri_full_name ri)
          (mkRepoSummary (ri_full_name ri) (ri_name ri) (ri_owner_login ri)
             (String.eqb (ri_owner_login ri) GITHUB_USER)
             (List.length (c :: cs))
             (str_max (commit_author_date c) (map commit_author_date cs)))
          (acc_repos st)) as Ht.
        unfold commits_of in Ht.
        rewrite dict_get_notin in Ht
          by (intros Hin; apply (Hk _ Hin); simpl; auto).
        simpl in Ht, B |- *. lia.
Qed.

Lemma fallback_loop_sum now cutoff evs st st' :
  (list_sum (acc_weekly st) <= dict_total (acc_repos st))%nat ->
  fallback_loop now cutoff evs st = Ok st' ->
  (list_sum (acc_weekly st') <= dict_total (acc_repos st'))%nat.
Proof.
  revert st; induction evs as [|ev rest IH]; simpl; intros st Hs H.
  - now injection H as <-.
  - destruct (fallback_step now cutoff ev st) as [st1|e] eqn:F; [|discriminate].
    apply (IH st1); [|exact H].
    unfold fallback_step in F.
    destruct (negb (String.eqb (ev_type ev) "PushEvent")).
    { injection F as <-; exact Hs. }
    destruct (fromisoformat (replace_Z (ev_created_at ev))) as [created|];
      [|discriminate].
    destruct (created <? cutoff)%Z.
    { injection F as <-; exact Hs. }
    injection F as <-; simpl.
    rewrite record_push_total.
    match goal with
    | |- (list_sum (bump ?n ?t ?c ?w) <= _)%nat =>
        pose proof (bump_sum_le n t c w)
    end.
    lia.
Qed.

Lemma repos_total_finish now st :
  list_sum (map commits (repos (finish now st))) = dict_total (acc_repos st).
Proof.
  unfold finish, dict_total; simpl.
  rewrite (Permutation_list_sum (Permutation_map commits (sort_repos_perm _))).
  now rewrite map_map.
Qed.

(** C2 (counterexample): the commit list of a repository can hold a
    commit whose author date is 13 weeks old (the [since] filter of the
    API is not the author date). It is counted in the repository's
    [commits] but falls in no bucket. *)
Lemma C2_old_commit_not_bucketed :
  match main "token" now_ex (srv_one_commit "2024-03-02T00:00:00Z") 5 with
  | Some (Ok o) =>
      list_sum (weeklyCommits o) = 0%nat /\
      list_sum (map commits (repos o)) = 1%nat
  | _ => False
  end.
Proof. vm_compute. split; reflexivity. Qed.

(** C2 (amended): [totalCommits] is the sum of [weeklyCommits], and this
    sum is at most the sum of the [commits] fields of [repos] (on the
    authenticated path, for a repository listing without duplicate full
    names); records outside the 12-week buckets make it smaller. *)
Theorem C2_weekly_total_le_repo_commits token now srv fuel o :
  (token <> EmptyString -> forall all_repos,
     fetch_all_repos srv fuel = Some (Ok all_repos) ->
     NoDup (map ri_full_name all_repos)) ->
  main token now srv fuel = Some (Ok o) ->
  totalCommits o = list_sum (weeklyCommits o) /\
  (list_sum (weeklyCommits o) <= list_sum (map commits (repos o)))%nat.
Proof.
  intros Hnd H. unfold main in H.
  destruct (String.eqb token EmptyString) eqn:Tk; cbn [negb rbind] in H.
  - destruct (fetch_public_events srv) as [evs|e]; cbn [negb rbind] in H; [|discriminate].
    destruct (fallback_loop now (cutoff_of now) evs
                (mkAcc [] (repeat 0%nat WEEKS) [])) as [st|e] eqn:F;
      cbn [negb rbind] in H; [|discriminate].
    injection H as <-. split; [reflexivity|].
    rewrite repos_total_finish.
    apply (fallback_loop_sum now (cutoff_of now) evs
             (mkAcc [] (repeat 0%nat WEEKS) []) st); [cbn; lia|exact F].
  - apply String.eqb_neq in Tk.
    destruct (fetch_all_repos srv fuel) as [[all_repos|e]|] eqn:FA;
      try discriminate.
    destruct (auth_loop srv fuel now (cutoff_of now) all_repos
                (mkAcc [] (repeat 0%nat WEEKS) [])) as [[st|e]|] eqn:A;
      cbn [negb rbind] in H; try discriminate.
    injection H as <-. split; [reflexivity|].
    rewrite repos_total_finish.
    apply (auth_loop_sum srv fuel now (cutoff_of now) all_repos
             (mkAcc [] (repeat 0%nat WEEKS) []) st (Hnd Tk _ eq_refl));
      [cbn; tauto|cbn; lia|exact A].
Qed.

Lemma out_fixture_values :
  main "token" now_ex srv_fixture 5 = Some (Ok out_fixture) /\
  weeklyCommits out_fixture = [0; 1; 0; 0; 0; 0; 0; 0; 0; 3; 0; 0]%nat /\
  map name (repos out_fixture) = ["x"; "y"]%string /\
  map commits (repos out_fixture) = [3; 1]%nat /\
  totalCommits out_fixture = 4%nat /\ activeWeeks out_fixture = 2%nat.
Proof. vm_compute. repeat split. Qed.

Lemma C2_weekly_total_le_repo_commits_witness :
  totalCommits out_fixture = list_sum (weeklyCommits out_fixture) /\
  (list_sum (weeklyCommits out_fixture)
   <= list_sum (map commits (repos out_fixture)))%nat.
Proof.
  apply (C2_weekly_total_le_repo_commits "token" now_ex srv_fixture 5).
  - intros _ all_repos Hf. vm_compute in Hf. injection Hf as <-.
    simpl. constructor; [simpl; intros [H|[]]; discriminate|].
    constructor; [simpl; tauto|constructor].
  - vm_compute; reflexivity.
Defined.

(** ** C3 and C4: pagination *)

Lemma fetch_pages_full_prefix {A} (api : nat -> response A) pre :
  forall fuel s acc,
  (forall i, (i < List.length pre)%nat ->
     api (s + i)%nat = RespPage (nth i pre []) /\
     (PER_PAGE <= List.length (nth i pre []))%nat) ->
  (List.length pre < fuel)%nat ->
  fetch_pages api fuel s acc
  = fetch_pages api (fuel - List.length pre) (s + List.length pre) (acc ++ List.concat pre).
Proof.
  induction pre as [|p pre IH]; intros fuel s acc Hp Hf; simpl in *.
  - rewrite Nat.sub_0_r, Nat.add_0_r, app_nil_r; reflexivity.
  - destruct fuel as [|fuel]; [lia|].
    destruct (Hp 0%nat ltac:(lia)) as [Hs Hl]; simpl in Hs, Hl.
    rewrite Nat.add_0_r in Hs. simpl; rewrite Hs.
    destruct p as [|r p]; [unfold PER_PAGE in Hl; simpl in Hl; lia|].
    replace (List.length (r :: p) <? PER_PAGE)%nat with false
      by (symmetry; apply Nat.ltb_ge; exact Hl).
    rewrite (IH fuel (S s) (acc ++ r :: p)).
    + rewrite <- app_assoc. f_equal. lia.
    + intros i Hi. specialize (Hp (S i) ltac:(lia)).
      replace (S s + i)%nat with (s + S i)%nat by lia. exact Hp.
    + lia.
Qed.

Lemma fetch_pages_from_one {A} (api : nat -> response A) pre fuel :
  full_prefix api pre -> (List.length pre < fuel)%nat ->
  fetch_pages api fuel 1 []
  = fetch_pages api (fuel - List.length pre) (S (List.length pre)) (List.concat pre).
Proof.
  intros Hp Hf.
  rewrite (fetch_pages_full_prefix api pre fuel 1 []); [reflexivity| |exact Hf].
  intros i Hi. exact (Hp i Hi).
Qed.

(** The page after [pre] decides the outcome. *)
Lemma fetch_pages_next {A} (api : nat -> response A) pre fuel :
  full_prefix api pre -> (List.length pre < fuel)%nat ->
  fetch_pages api fuel 1 [] =
  match api (S (List.length pre)) with
  | RespHTTPError _ => Some (Ok (List.concat pre))
  | RespURLError => Some (Raised URLError)
  | RespPage [] => Some (Ok (List.concat pre))
  | RespPage recs =>
      if (List.length recs <? PER_PAGE)%nat then Some (Ok (List.concat pre ++ recs))
      else fetch_pages api (fuel - S (List.length pre)) (S (S (List.length pre)))
             (List.concat pre ++ recs)
  end.
Proof.
  intros Hp Hf. rewrite (fetch_pages_from_one api pre fuel Hp Hf).
  destruct (fuel - List.length pre)%nat as [|f] eqn:E; [lia|].
  replace (fuel - S (List.length pre))%nat with f by lia.
  reflexivity.
Qed.

Lemma fetch_events_prefix {A} (api : nat -> response A) pre :
  nonempty_prefix api pre -> (List.length pre < 3)%nat ->
  fetch_events_loop api [1; 2; 3]%nat []
  = fetch_events_loop api (skipn (List.length pre) [1; 2; 3]%nat) (List.concat pre).
Proof.
  intros Hp Hl.
  destruct pre as [|p1 [|p2 [|p3 pre]]]; simpl in Hl; try lia.
  - reflexivity.
  - destruct (Hp 0%nat ltac:(simpl; lia)) as [H1 N1]; simpl in H1, N1.
    simpl; rewrite H1. destruct p1; [congruence|].
    simpl; rewrite app_nil_r; reflexivity.
  - destruct (Hp 0%nat ltac:(simpl; lia)) as [H1 N1]; simpl in H1, N1.
    destruct (Hp 1%nat ltac:(simpl; lia)) as [H2 N2]; simpl in H2, N2.
    simpl; rewrite H1. destruct p1; [congruence|].
    simpl; rewrite H2. destruct p2; [congruence|].
    simpl; rewrite app_nil_r; reflexivity.
Qed.

Lemma fetch_events_next {A} (api : nat -> response A) pre :
  nonempty_prefix api pre -> (List.length pre < 3)%nat ->
  fetch_events_loop api [1; 2; 3]%nat [] =
  match api (S (List.length pre)) with
  | RespHTTPError _ => Ok (List.concat pre)
  | RespURLError => Raised URLError
  | RespPage [] => Ok (List.concat pre)
  | RespPage evs =>
      fetch_events_loop api (skipn (S (List.length pre)) [1; 2; 3]%nat)
        (List.concat pre ++ evs)
  end.
Proof.
  intros Hp Hl. rewrite (fetch_events_prefix api pre Hp Hl).
  destruct pre as [|p1 [|p2 [|p3 pre]]]; simpl in Hl; try lia; reflexivity.
Qed.

(** C3 (counterexample): a connection failure on the first page of the
    repository listing is a [URLError] that is not an [HTTPError]; it is
    not caught, and the run fails instead of going on with no records. *)
Lemma C3_connection_error_propagates :
  fetch_all_repos srv_unreachable 5 = Some (Raised URLError) /\
  fetch_repo_commits srv_unreachable 5 "a/x" now_ex = Some (Raised URLError) /\
  fetch_public_events srv_unreachable = Raised URLError /\
  main "token" now_ex srv_unreachable 5 = Some (Raised URLError) /\
  main EmptyString now_ex srv_unreachable 5 = Some (Raised URLError).
Proof. repeat split. Qed.

(** C3 (amended): after the pages [pre] (full pages for the repository
    and commit listings, nonempty pages within the 3-page bound for the
    events feed), an [HTTPError] on the next page stops the fetch, which
    returns exactly the records of [pre]; a connection-level [URLError] on
    that page is not caught and propagates to the caller. *)
Theorem C3_http_error_returns_prefix :
  (forall srv fuel pre status,
     full_prefix (srv_user_repos srv) pre -> (List.length pre < fuel)%nat ->
     (srv_user_repos srv (S (List.length pre)) = RespHTTPError status ->
        fetch_all_repos srv fuel = Some (Ok (List.concat pre))) /\
     (srv_user_repos srv (S (List.length pre)) = RespURLError ->
        fetch_all_repos srv fuel = Some (Raised URLError))) /\
  (forall srv fuel repo_full_name since pre status,
     full_prefix (srv_repo_commits srv repo_full_name since) pre ->
     (List.length pre < fuel)%nat ->
     (srv_repo_commits srv repo_full_name since (S (List.length pre))
        = RespHTTPError status ->
        fetch_repo_commits srv fuel repo_full_name since
        = Some (Ok (List.concat pre))) /\
     (srv_repo_commits srv repo_full_name since (S (List.length pre))
        = RespURLError ->
        fetch_repo_commits srv fuel repo_full_name since
        = Some (Raised URLError))) /\
  (forall srv pre status,
     nonempty_prefix (srv_user_events srv) pre -> (List.length pre < 3)%nat ->
     (srv_user_events srv (S (List.length pre)) = RespHTTPError status ->
        fetch_public_events srv = Ok (List.concat pre)) /\
     (srv_user_events srv (S (List.length pre)) = RespURLError ->
        fetch_public_events srv = Raised URLError)).
Proof.
  split; [|split].
  - intros srv fuel pre status Hp Hf; unfold fetch_all_repos.
    rewrite (fetch_pages_next _ pre fuel Hp Hf).
    split; intros H; rewrite H; reflexivity.
  - intros srv fuel fn since pre status Hp Hf; unfold fetch_repo_commits.
    rewrite (fetch_pages_next _ pre fuel Hp Hf).
    split; intros H; rewrite H; reflexivity.
  - intros srv pre status Hp Hl; unfold fetch_public_events.
    rewrite (fetch_events_next _ pre Hp Hl).
    split; intros H; rewrite H; reflexivity.
Qed.

Lemma C3_http_error_returns_prefix_witness :
  fetch_all_repos srv_full_then_error 3 = Some (Ok (repeat repo_x 100)) /\
  fetch_public_events srv_full_then_error
  = Ok [mkEvent "PushEvent" "2024-05-31T00:00:00Z" "radaiko/site" None].
Proof.
  destruct C3_http_error_returns_prefix as [Hrepos [_ Hevents]].
  split.
  - apply (proj1 (Hrepos srv_full_then_error 3 [repeat repo_x 100] 502%Z
                   ltac:(intros [|i] Hi; [split; [reflexivity|vm_compute; lia]
                                         |simpl in Hi; lia])
                   ltac:(simpl; lia))).
    reflexivity.
  - apply (proj1 (Hevents srv_full_then_error
                   [[mkEvent "PushEvent" "2024-05-31T00:00:00Z" "radaiko/site" None]]
                   502%Z
                   ltac:(intros [|i] Hi; [split; [reflexivity|discriminate]
                                         |simpl in Hi; lia])
                   ltac:(simpl; lia))).
    reflexivity.
Defined.

Lemma fetch_pages_all_full {A} (api : nat -> response A) :
  (forall p, exists l, api p = RespPage l /\ (PER_PAGE <= List.length l)%nat) ->
  forall fuel s acc, fetch_pages api fuel s acc = None.
Proof.
  intros Hall fuel; induction fuel as [|fuel IH]; intros s acc; [reflexivity|].
  simpl. destruct (Hall s) as [l [Hs Hl]]; rewrite Hs.
  destruct l as [|r l]; [unfold PER_PAGE in Hl; simpl in Hl; lia|].
  replace (List.length (r :: l) <? PER_PAGE)%nat with false
    by (symmetry; apply Nat.ltb_ge; exact Hl).
  apply IH.
Qed.

Lemma fetch_events_loop_length {A} (api : nat -> response A) :
  (forall p l, api p = RespPage l -> (List.length l <= PER_PAGE)%nat) ->
  forall pages_left acc evs,
  fetch_events_loop api pages_left acc = Ok evs ->
  (List.length evs <= List.length acc + List.length pages_left * PER_PAGE)%nat.
Proof.
  intros Hb pages_left; induction pages_left as [|p ps IH]; simpl;
    intros acc evs H.
  - injection H as <-; lia.
  - destruct (api p) as [[|e l]|st|] eqn:Ap.
    + injection H as <-; lia.
    + specialize (IH _ _ H). specialize (Hb _ _ Ap).
      rewrite length_app in IH. unfold PER_PAGE in *; simpl length in *; lia.
    + injection H as <-; lia.
    + discriminate.
Qed.

(** C4 (counterexample): the events feed is not stopped by a short page:
    after a first page of 50 events it asks for page 2 and keeps its
    records. *)
Lemma C4_events_short_page_does_not_stop :
  srv_user_events srv_short_pages 1 = RespPage (repeat push_ev 50) /\
  (List.length (repeat push_ev 50) < PER_PAGE)%nat /\
  fetch_public_events srv_short_pages = Ok (repeat push_ev 100) /\
  repeat push_ev 100 <> repeat push_ev 50.
Proof.
  split; [reflexivity|]. split; [vm_compute; lia|].
  split; [reflexivity|].
  intros H. apply (f_equal (@List.length Event)) in H.
  rewrite !repeat_length in H. discriminate.
Qed.

(** C4 (amended): the repository and commit fetchers request pages
    1, 2, ... and, after full pages [pre], stop at the first empty or
    short page, returning [pre]'s records followed by that page's; they
    have no page bound (a server that only returns full pages keeps them
    fetching). The events fetcher requests pages 1..3, is not stopped by a
    short page (only by an empty page or an error), returns the
    concatenation of its pages, and at most 300 records when every page
    holds at most 100. *)
Theorem C4_pagination :
  (forall srv fuel pre last,
     full_prefix (srv_user_repos srv) pre -> (List.length pre < fuel)%nat ->
     srv_user_repos srv (S (List.length pre)) = RespPage last ->
     (List.length last < PER_PAGE)%nat ->
     fetch_all_repos srv fuel = Some (Ok (List.concat pre ++ last))) /\
  (forall srv fuel repo_full_name since pre last,
     full_prefix (srv_repo_commits srv repo_full_name since) pre ->
     (List.length pre < fuel)%nat ->
     srv_repo_commits srv repo_full_name since (S (List.length pre))
       = RespPage last ->
     (List.length last < PER_PAGE)%nat ->
     fetch_repo_commits srv fuel repo_full_name since
     = Some (Ok (List.concat pre ++ last))) /\
  (forall srv,
     (forall p, exists l, srv_user_repos srv p = RespPage l /\
                          (PER_PAGE <= List.length l)%nat) ->
     forall fuel, fetch_all_repos srv fuel = None) /\
  (forall srv repo_full_name since,
     (forall p, exists l, srv_repo_commits srv repo_full_name since p = RespPage l
                          /\ (PER_PAGE <= List.length l)%nat) ->
     forall fuel, fetch_repo_commits srv fuel repo_full_name since = None) /\
  (forall srv p1 p2 p3,
     srv_user_events srv 1 = RespPage p1 -> p1 <> [] ->
     srv_user_events srv 2 = RespPage p2 -> p2 <> [] ->
     srv_user_events srv 3 = RespPage p3 ->
     fetch_public_events srv = Ok (p1 ++ p2 ++ p3)) /\
  (forall srv evs,
     (forall p l, srv_user_events srv p = RespPage l ->
                  (List.length l <= PER_PAGE)%nat) ->
     fetch_public_events srv = Ok evs ->
     (List.length evs <= 3 * PER_PAGE)%nat).
Proof.
  split; [|split; [|split; [|split; [|split]]]].
  - intros srv fuel pre last Hp Hf Hl Hs; unfold fetch_all_repos.
    rewrite (fetch_pages_next _ pre fuel Hp Hf), Hl.
    destruct last as [|r l]; [now rewrite app_nil_r|].
    apply Nat.ltb_lt in Hs; rewrite Hs; reflexivity.
  - intros srv fuel fn since pre last Hp Hf Hl Hs; unfold fetch_repo_commits.
    rewrite (fetch_pages_next _ pre fuel Hp Hf), Hl.
    destruct last as [|r l]; [now rewrite app_nil_r|].
    apply Nat.ltb_lt in Hs; rewrite Hs; reflexivity.
  - intros srv Hall fuel; apply fetch_pages_all_full, Hall.
  - intros srv fn since Hall fuel; apply fetch_pages_all_full, Hall.
  - intros srv p1 p2 p3 H1 N1 H2 N2 H3; unfold fetch_public_events; simpl.
    rewrite H1; destruct p1 as [|e1 p1]; [congruence|].
    rewrite H2; destruct p2 as [|e2 p2]; [congruence|].
    rewrite H3; destruct p3 as [|e3 p3].
    + rewrite !app_nil_r; reflexivity.
    + simpl; rewrite <- app_assoc; reflexivity.
  - intros srv evs Hb H.
    apply (fetch_events_loop_length _ Hb) in H. simpl in H; unfold PER_PAGE in *; lia.
Qed.

Lemma C4_pagination_witness :
  fetch_all_repos srv_fixture 4 = Some (Ok [repo_x; repo_y]) /\
  fetch_all_repos srv_endless 4 = None /\
  fetch_public_events srv_short_pages = Ok (repeat push_ev 50 ++ repeat push_ev 50 ++ []).
Proof.
  destruct C4_pagination as [Hrepos [_ [Hfull [_ [Hev _]]]]].
  split; [|split].
  - apply (Hrepos srv_fixture 4 [] [repo_x; repo_y]).
    + intros i Hi; simpl in Hi; lia.
    + simpl; lia.
    + reflexivity.
    + vm_compute; lia.
  - apply Hfull. intros p. exists (repeat repo_x 100).
    split; [reflexivity|rewrite repeat_length; unfold PER_PAGE; lia].
  - apply Hev; try reflexivity; discriminate.
Defined.

(** ** C5: push events without embedded commits *)

Lemma record_push_commits_of rs repo_name short_name own n created_at :
  commits_of repo_name (record_push rs repo_name short_name own n created_at)
  = (commits_of repo_name rs + n)%nat.
Proof.
  unfold record_push, commits_of.
  destruct (dict_get repo_name rs) as [r|] eqn:G.
  - rewrite G, dict_get_set_same.
    destruct (String.ltb _ _); reflexivity.
  - rewrite !dict_get_set_same.
    destruct (String.ltb _ _); reflexivity.
Qed.

Lemma bucket_of_in_window now t :
  (cutoff_of now < t)%Z -> (t <= now)%Z -> exists i, bucket_of now t = Some i.
Proof.
  intros H1 H2. pose proof week_us_pos as Hw.
  unfold cutoff_of, WEEKS in H1.
  rewrite bucket_of_quot; cbv zeta.
  assert (0 <= Z.quot (now - t) week_us < 12)%Z as [Q1 Q2].
  { rewrite Z.quot_div_nonneg by lia. split.
    - apply Z.div_pos; lia.
    - apply Z.div_lt_upper_bound; lia. }
  apply Z.leb_le in Q1; apply Z.ltb_lt in Q2. rewrite Q1, Q2.
  eexists; reflexivity.
Qed.

(** C5 (counterexample): a push event exactly 12 weeks old passes the
    cutoff filter ([created < cutoff] is false) but its index is 12: it
    adds 1 to its repository and nothing to the histogram. *)
Lemma C5_push_at_cutoff_no_bucket :
  fromisoformat (replace_Z "2024-03-09T00:00:00Z") = Some (cutoff_of now_ex) /\
  match main EmptyString now_ex (srv_events [push_at "2024-03-09T00:00:00Z"]) 5 with
  | Some (Ok o) =>
      map commits (repos o) = [1%nat] /\
      weeklyCommits o = repeat 0%nat 12
  | _ => False
  end.
Proof. vm_compute. repeat split. Qed.

(** C5 (amended): a push event that passes the cutoff filter and carries
    no embedded commit adds exactly 1 to its repository's [commits] (and
    to their total), and 1 to the histogram slot [bucket_of now created]
    when there is one; for an event inside the window (after the cutoff
    and not after [now]) that slot exists and the histogram total grows
    by exactly 1. *)
Theorem C5_empty_push_counts_one now st ev created :
  ev_type ev = "PushEvent"%string ->
  (ev_payload_commits ev = None \/ ev_payload_commits ev = Some []) ->
  fromisoformat (replace_Z (ev_created_at ev)) = Some created ->
  (cutoff_of now <= created)%Z ->
  exists st',
    fallback_step now (cutoff_of now) ev st = Ok st' /\
    commits_of (ev_repo_name ev) (acc_repos st')
      = S (commits_of (ev_repo_name ev) (acc_repos st)) /\
    dict_total (acc_repos st') = S (dict_total (acc_repos st)) /\
    acc_weekly st' = bump now created 1 (acc_weekly st) /\
    (List.length (acc_weekly st) = WEEKS ->
     (cutoff_of now < created)%Z -> (created <= now)%Z ->
     exists i, bucket_of now created = Some i /\
               acc_weekly st' = add_at i 1 (acc_weekly st) /\
               list_sum (acc_weekly st') = S (list_sum (acc_weekly st))).
Proof.
  intros Ht Hc Hp Hcut.
  unfold fallback_step. rewrite Ht, Hp. simpl negb; cbv iota.
  replace (created <? cutoff_of now)%Z with false
    by (symmetry; apply Z.ltb_ge; exact Hcut).
  replace (if (List.length (match ev_payload_commits ev with
                            | Some l => l | None => [] end) =? 0)%nat
           then 1%nat
           else List.length (match ev_payload_commits ev with
                             | Some l => l | None => [] end))
    with 1%nat by (destruct Hc as [-> | ->]; reflexivity).
  eexists; split; [reflexivity|]; simpl.
  split; [rewrite record_push_commits_of; lia|].
  split; [rewrite record_push_total; lia|].
  split; [reflexivity|].
  intros Hlen Hlo Hhi.
  destruct (bucket_of_in_window now created Hlo Hhi) as [i Hi].
  exists i. unfold bump; rewrite Hi. split; [reflexivity|]. split; [reflexivity|].
  rewrite add_at_sum; [lia|].
  rewrite Hlen; exact (bucket_of_range _ _ _ Hi).
Qed.

Lemma C5_empty_push_counts_one_witness :
  exists st',
    fallback_step now_ex (cutoff_of now_ex) (push_at "2024-05-31T00:00:00Z")
      acc_init = Ok st' /\
    commits_of "radaiko/site" (acc_repos st')
      = S (commits_of "radaiko/site" (acc_repos acc_init)) /\
    dict_total (acc_repos st') = S (dict_total (acc_repos acc_init)) /\
    acc_weekly st' = bump now_ex (now_ex - 86400 * us_per_second)%Z 1
                       (acc_weekly acc_init) /\
    (List.length (acc_weekly acc_init) = WEEKS ->
     (cutoff_of now_ex < now_ex - 86400 * us_per_second)%Z ->
     (now_ex - 86400 * us_per_second <= now_ex)%Z ->
     exists i, bucket_of now_ex (now_ex - 86400 * us_per_second)%Z = Some i /\
               acc_weekly st' = add_at i 1 (acc_weekly acc_init) /\
               list_sum (acc_weekly st') = S (list_sum (acc_weekly acc_init))).
Proof.
  apply (C5_empty_push_counts_one now_ex acc_init (push_at "2024-05-31T00:00:00Z")
           (now_ex - 86400 * us_per_second)%Z).
  - reflexivity.
  - left; reflexivity.
  - vm_compute; reflexivity.
  - vm_compute; discriminate.
Defined.

(** ** The two paths of [main] *)

Lemma main_ok_cases token now srv fuel o :
  main token now srv fuel = Some (Ok o) ->
  exists st, o = finish now st /\
    ((token = EmptyString /\ exists evs, fetch_public_events srv = Ok evs /\
        fallback_loop now (cutoff_of now) evs acc_init = Ok st) \/
     (token <> EmptyString /\ exists all_repos,
        fetch_all_repos srv fuel = Some (Ok all_repos) /\
        auth_loop srv fuel now (cutoff_of now) all_repos acc_init = Some (Ok st))).
Proof.
  intros H. unfold main in H; fold acc_init in H.
  destruct (String.eqb token EmptyString) eqn:Tk; cbn [negb rbind] in H.
  - apply String.eqb_eq in Tk.
    destruct (fetch_public_events srv) as [evs|e] eqn:FE;
      cbn [rbind] in H; [|discriminate].
    destruct (fallback_loop now (cutoff_of now) evs acc_init) as [st|e] eqn:F;
      cbn [rbind] in H; [|discriminate].
    injection H as <-. exists st; split; [reflexivity|].
    left; split; [exact Tk|]; eauto.
  - apply String.eqb_neq in Tk.
    destruct (fetch_all_repos srv fuel) as [[all_repos|e]|] eqn:FA;
      try discriminate.
    destruct (auth_loop srv fuel now (cutoff_of now) all_repos acc_init)
      as [[st|e]|] eqn:A; cbn [rbind] in H; try discriminate.
    injection H as <-. exists st; split; [reflexivity|].
    right; split; [exact Tk|]; eauto.
Qed.

(** ** C6: [repos] order *)

(** C6: in every output document, [repos] is sorted by [commits],
    largest first: each entry's count is at least the next one's. *)
Theorem C6_repos_sorted_desc token now srv fuel o :
  main token now srv fuel = Some (Ok o) ->
  LocallySorted (fun a b => (commits b <= commits a)%nat) (repos o).
Proof.
  intros H. destruct (main_ok_cases _ _ _ _ _ H) as [st [-> _]].
  exact (sort_repos_sorted _).
Qed.

Lemma C6_repos_sorted_desc_witness :
  LocallySorted (fun a b => (commits b <= commits a)%nat) (repos out_fixture).
Proof.
  apply (C6_repos_sorted_desc "token" now_ex srv_fixture 5).
  vm_compute; reflexivity.
Defined.

(** ** C9: no pages on the fallback path *)

Lemma fallback_loop_pages now cutoff evs st st' :
  fallback_loop now cutoff evs st = Ok st' -> acc_pages st' = acc_pages st.
Proof.
  revert st; induction evs as [|ev rest IH]; simpl; intros st H.
  - now injection H as <-.
  - destruct (fallback_step now cutoff ev st) as [st1|e] eqn:F; [|discriminate].
    rewrite (IH _ H). unfold fallback_step in F.
    destruct (negb _); [now injection F as <-|].
    destruct (fromisoformat _); [|discriminate].
    destruct (_ <? cutoff)%Z; [now injection F as <-|].
    now injection F as <-.
Qed.

(** C9: without a credential, the [pages] list of the output is empty. *)
Theorem C9_fallback_no_pages token now srv fuel o :
  token = EmptyString ->
  main token now srv fuel = Some (Ok o) ->
  pages o = [].
Proof.
  intros Tk H. destruct (main_ok_cases _ _ _ _ _ H) as [st [-> [[_ [evs [_ F]]]|[Tk' _]]]].
  - unfold finish; simpl. rewrite (fallback_loop_pages _ _ _ _ _ F). reflexivity.
  - contradiction.
Qed.

Lemma C9_fallback_no_pages_witness :
  pages (match main EmptyString now_ex (srv_events [push_ev]) 5 with
         | Some (Ok o) => o | _ => out_default end) = [].
Proof.
  apply (C9_fallback_no_pages EmptyString now_ex (srv_events [push_ev]) 5);
    [reflexivity|vm_compute; reflexivity].
Defined.

(** ** C7: [pages] order and contents *)

Lemma discover_pages_from all_repos ri ps :
  In ri all_repos ->
  (forall p, In p ps -> site_from all_repos p) ->
  forall p, In p (discover_pages ri ps) -> site_from all_repos p.
Proof.
  intros Hri Hps p Hp. unfold discover_pages in Hp.
  change (GITHUB_USER ++ ".github.io")%string with "radaiko.github.io"%string in Hp.
  destruct (ri_has_pages ri) eqn:Hh; [|exact (Hps p Hp)].
  destruct (ri_fork ri) eqn:Hf; [exact (Hps p Hp)|].
  destruct (String.eqb (ri_name ri) "radaiko.github.io") eqn:Hn;
    [exact (Hps p Hp)|].
  cbn [andb negb] in Hp.
  apply in_app_or in Hp as [Hp|[<-|[]]]; [exact (Hps p Hp)|].
  exists ri; repeat split; auto.
  apply String.eqb_neq in Hn; exact Hn.
Qed.

Lemma auth_loop_pages srv fuel now cutoff all_repos rest st st' :
  (forall ri, In ri rest -> In ri all_repos) ->
  (forall p, In p (acc_pages st) -> site_from all_repos p) ->
  auth_loop srv fuel now cutoff rest st = Some (Ok st') ->
  forall p, In p (acc_pages st') -> site_from all_repos p.
Proof.
  revert st; induction rest as [|ri rest IH]; simpl; intros st Hsub Hst H.
  - now injection H as <-.
  - assert (Hps := discover_pages_from all_repos ri (acc_pages st)
                     (Hsub ri (or_introl eq_refl)) Hst).
    assert (Hsub' : forall r, In r rest -> In r all_repos) by auto.
    destruct (fetch_repo_commits srv fuel (ri_full_name ri) cutoff)
      as [[[|c cs]|e]|]; try discriminate.
    + refine (IH _ Hsub' _ H); exact Hps.
    + destruct (bucket_commits now (c :: cs) (acc_weekly st)); [|discriminate].
      refine (IH _ Hsub' _ H); exact Hps.
Qed.

(** C7: in every output document, [pages] is sorted by lowercased name
    (each name at most the next one), and each entry comes from a listed
    repository that has Pages enabled, is not a fork and is not named
    [radaiko.github.io]. *)
Theorem C7_pages_sorted_filtered token now srv fuel o :
  main token now srv fuel = Some (Ok o) ->
  LocallySorted (fun a b => String.leb (lower (site_name a)) (lower (site_name b)) = true)
    (pages o) /\
  (forall p, In p (pages o) ->
     exists all_repos ri,
       fetch_all_repos srv fuel = Some (Ok all_repos) /\ In ri all_repos /\
       ri_has_pages ri = true /\ ri_fork ri = false /\
       ri_name ri <> "radaiko.github.io"%string /\ site_name p = ri_name ri).
Proof.
  intros H. destruct (main_ok_cases _ _ _ _ _ H) as [st [-> Hpath]].
  split; [exact (sort_pages_sorted _)|].
  intros p Hp. unfold finish in Hp; simpl in Hp.
  apply (Permutation_in _ (sort_pages_perm _)) in Hp.
  destruct Hpath as [[_ [evs [_ F]]]|[_ [all_repos [FA A]]]].
  - rewrite (fallback_loop_pages _ _ _ _ _ F) in Hp; contradiction.
  - destruct (auth_loop_pages srv fuel now (cutoff_of now) all_repos all_repos
                acc_init st (fun _ h => h) (fun _ h => False_ind _ h) A p Hp)
      as [ri Hri].
    exists all_repos, ri; split; [exact FA|exact Hri].
Qed.

Lemma C7_pages_sorted_filtered_witness :
  map site_name (pages out_pages) = ["alpha"; "Zeta"]%string /\
  LocallySorted (fun a b => String.leb (lower (site_name a)) (lower (site_name b)) = true)
    (pages out_pages).
Proof.
  split; [vm_compute; reflexivity|].
  apply (proj1 (C7_pages_sorted_filtered "token" now_ex srv_pages 5 out_pages
                  ltac:(vm_compute; reflexivity))).
Defined.

(** ** C10: the [isOwn] flag *)

Lemma record_push_own rs repo_name short_name own n created_at :
  Forall (fun kv => own_ok (snd kv)) rs ->
  Forall (fun kv => own_ok (snd kv))
    (record_push rs repo_name short_name own n created_at).
Proof.
  intros Hrs. unfold record_push.
  set (rs1 := match dict_get repo_name rs with
              | Some _ => rs
              | None => dict_set repo_name
                          (mkRepoSummary repo_name short_name own
                             (String.eqb own GITHUB_USER) 0 created_at) rs
              end).
  assert (H1 : Forall (fun kv => own_ok (snd kv)) rs1).
  { unfold rs1; destruct (dict_get repo_name rs); [exact Hrs|].
    apply dict_set_forall; [exact Hrs|reflexivity]. }
  destruct (dict_get repo_name rs1) as [r|] eqn:G; [|exact H1].
  pose proof (dict_get_forall _ _ _ _ H1 G) as Hr.
  apply dict_set_forall; [exact H1|].
  destruct (String.ltb _ _); exact Hr.
Qed.

Lemma fallback_loop_own now cutoff evs st st' :
  Forall (fun kv => own_ok (snd kv)) (acc_repos st) ->
  fallback_loop now cutoff evs st = Ok st' ->
  Forall (fun kv => own_ok (snd kv)) (acc_repos st').
Proof.
  revert st; induction evs as [|ev rest IH]; simpl; intros st Hst H.
  - now injection H as <-.
  - destruct (fallback_step now cutoff ev st) as [st1|e] eqn:F; [|discriminate].
    apply (IH st1); [|exact H].
    unfold fallback_step in F.
    destruct (negb _); [now injection F as <-|].
    destruct (fromisoformat _); [|discriminate].
    destruct (_ <? cutoff)%Z; [now injection F as <-|].
    injection F as <-; simpl. now apply record_push_own.
Qed.

Lemma auth_loop_own srv fuel now cutoff all_repos st st' :
  Forall (fun kv => own_ok (snd kv)) (acc_repos st) ->
  auth_loop srv fuel now cutoff all_repos st = Some (Ok st') ->
  Forall (fun kv => own_ok (snd kv)) (acc_repos st').
Proof.
  revert st; induction all_repos as [|ri rest IH]; simpl; intros st Hst H.
  - now injection H as <-.
  - destruct (fetch_repo_commits srv fuel (ri_full_name ri) cutoff)
      as [[[|c cs]|e]|]; try discriminate.
    + refine (IH _ _ H); exact Hst.
    + destruct (bucket_commits now (c :: cs) (acc_weekly st)); [|discriminate].
      refine (IH _ _ H). simpl.
      apply dict_set_forall; [exact Hst|reflexivity].
Qed.

(** C10: every [RepoSummary] of the output has [isOwn] true exactly when
    its [owner] is ["radaiko"]. *)
Theorem C10_isOwn_iff_owner token now srv fuel o :
  main token now srv fuel = Some (Ok o) ->
  forall r, In r (repos o) -> isOwn r = String.eqb (owner r) "radaiko".
Proof.
  intros H. destruct (main_ok_cases _ _ _ _ _ H) as [st [-> Hpath]].
  assert (Hown : Forall (fun kv => own_ok (snd kv)) (acc_repos st)).
  { destruct Hpath as [[_ [evs [_ F]]]|[_ [all_repos [_ A]]]].
    - exact (fallback_loop_own _ _ _ acc_init _ (Forall_nil _) F).
    - exact (auth_loop_own _ _ _ _ _ acc_init _ (Forall_nil _) A). }
  intros r Hr. unfold finish in Hr; simpl in Hr.
  apply (Permutation_in _ (sort_repos_perm _)) in Hr.
  apply in_map_iff in Hr as [[k r'] [<- Hin]].
  rewrite Forall_forall in Hown. exact (Hown _ Hin).
Qed.

Lemma C10_isOwn_iff_owner_witness :
  map isOwn (repos out_mixed) = [false; true] /\
  (forall r, In r (repos out_mixed) -> isOwn r = String.eqb (owner r) "radaiko").
Proof.
  split; [vm_compute; reflexivity|].
  apply (C10_isOwn_iff_owner EmptyString now_ex srv_mixed_owners 5 out_mixed).
  vm_compute; reflexivity.
Defined.

(** ** C8: re-running over the same remote data *)

Lemma fetch_pages_ext {A} (api1 api2 : nat -> response A) :
  (forall p, api1 p = api2 p) ->
  forall fuel s acc, fetch_pages api1 fuel s acc = fetch_pages api2 fuel s acc.
Proof.
  intros He fuel; induction fuel as [|fuel IH]; intros s acc; [reflexivity|].
  simpl. rewrite He. destruct (api2 s) as [[|r l]| |]; try reflexivity.
  destruct (_ <? _)%nat; [reflexivity|apply IH].
Qed.

Lemma auth_loop_repos_indep srv fuel now1 now2 c1 c2 all_repos st1 st2 st1' st2' :
  (forall fn p, srv_repo_commits srv fn c1 p = srv_repo_commits srv fn c2 p) ->
  acc_repos st1 = acc_repos st2 ->
  auth_loop srv fuel now1 c1 all_repos st1 = Some (Ok st1') ->
  auth_loop srv fuel now2 c2 all_repos st2 = Some (Ok st2') ->
  acc_repos st1' = acc_repos st2'.
Proof.
  intros Hsrv. revert st1 st2.
  induction all_repos as [|ri rest IH]; simpl; intros st1 st2 Hr H1 H2.
  - injection H1 as <-; injection H2 as <-; exact Hr.
  - assert (Hf : fetch_repo_commits srv fuel (ri_full_name ri) c1
                 = fetch_repo_commits srv fuel (ri_full_name ri) c2).
    { apply fetch_pages_ext; intros p; apply Hsrv. }
    rewrite Hf in H1.
    destruct (fetch_repo_commits srv fuel (ri_full_name ri) c2)
      as [[[|c cs]|e]|]; try discriminate.
    + refine (IH _ _ _ H1 H2); simpl; exact Hr.
    + destruct (bucket_commits now1 (c :: cs) (acc_weekly st1)); [|discriminate].
      destruct (bucket_commits now2 (c :: cs) (acc_weekly st2)); [|discriminate].
      refine (IH _ _ _ H1 H2); simpl; rewrite Hr; reflexivity.
Qed.

Lemma fallback_loop_repos_indep now1 now2 c1 c2 evs st1 st2 st1' st2' :
  (forall ev, In ev evs -> counted c1 ev = counted c2 ev) ->
  acc_repos st1 = acc_repos st2 ->
  fallback_loop now1 c1 evs st1 = Ok st1' ->
  fallback_loop now2 c2 evs st2 = Ok st2' ->
  acc_repos st1' = acc_repos st2'.
Proof.
  revert st1 st2; induction evs as [|ev rest IH]; simpl; intros st1 st2 Hc Hr H1 H2.
  - injection H1 as <-; injection H2 as <-; exact Hr.
  - assert (Hc0 := Hc ev (or_introl eq_refl)).
    assert (Hc' : forall ev', In ev' rest -> counted c1 ev' = counted c2 ev')
      by (intros ev' Hin; apply Hc; now right).
    unfold counted, is_push, event_time in Hc0.
    unfold fallback_step in H1, H2.
    destruct (String.eqb (ev_type ev) "PushEvent");
      cbn [negb rbind andb] in H1, H2, Hc0; [|exact (IH _ _ Hc' Hr H1 H2)].
    destruct (fromisoformat (replace_Z (ev_created_at ev))) as [t|];
      [|discriminate].
    destruct (t <? c1)%Z, (t <? c2)%Z; cbn [negb rbind] in H1, H2, Hc0;
      try discriminate.
    + exact (IH _ _ Hc' Hr H1 H2).
    + refine (IH _ _ Hc' _ H1 H2); simpl; now rewrite Hr.
Qed.

(** C8 (counterexample): the same public push event, seen one day old by
    a run and eight days old by a run a week later, sits in bucket 11
    the first time and in bucket 10 the second. *)
Lemma C8_rerun_shifts_weeks :
  match main EmptyString now_ex (srv_events [push_ev]) 5,
        main EmptyString (now_ex + week_us)%Z (srv_events [push_ev]) 5 with
  | Some (Ok o1), Some (Ok o2) =>
      generatedAt o1 <> generatedAt o2 /\ repos o1 = repos o2 /\
      weeklyCommits o1 = [0; 0; 0; 0; 0; 0; 0; 0; 0; 0; 0; 1]%nat /\
      weeklyCommits o2 = [0; 0; 0; 0; 0; 0; 0; 0; 0; 0; 1; 0]%nat
  | _, _ => False
  end.
Proof. vm_compute. repeat split. discriminate. Qed.

(** C8 (amended): [generatedAt] is each run's own [now], so it differs
    between runs at different instants; [repos] is the same in both runs
    on the authenticated path when the API gives the same commit lists for
    both runs' [since] cutoffs, and on the fallback path when the same
    events fall inside both runs' windows ([weeklyCommits] is not: it is
    measured from each run's [now]). *)
Theorem C8_rerun_generatedAt_and_repos token srv fuel now1 now2 o1 o2 :
  main token now1 srv fuel = Some (Ok o1) ->
  main token now2 srv fuel = Some (Ok o2) ->
  generatedAt o1 = now1 /\ generatedAt o2 = now2 /\
  (now1 <> now2 -> generatedAt o1 <> generatedAt o2) /\
  (token <> EmptyString ->
   (forall fn p, srv_repo_commits srv fn (cutoff_of now1) p
                 = srv_repo_commits srv fn (cutoff_of now2) p) ->
   repos o1 = repos o2) /\
  (token = EmptyString -> forall evs, fetch_public_events srv = Ok evs ->
   (forall ev, In ev evs -> counted (cutoff_of now1) ev = counted (cutoff_of now2) ev) ->
   repos o1 = repos o2).
Proof.
  intros H1 H2.
  destruct (main_ok_cases _ _ _ _ _ H1) as [st1 [-> P1]].
  destruct (main_ok_cases _ _ _ _ _ H2) as [st2 [-> P2]].
  split; [reflexivity|]. split; [reflexivity|]. split; [simpl; tauto|].
  split.
  - intros Tk Hsrv.
    destruct P1 as [[Tk1 _]|[_ [a1 [FA1 A1]]]]; [contradiction|].
    destruct P2 as [[Tk2 _]|[_ [a2 [FA2 A2]]]]; [contradiction|].
    rewrite FA1 in FA2; injection FA2 as <-.
    unfold finish; simpl.
    rewrite (auth_loop_repos_indep srv fuel now1 now2 _ _ a1 acc_init acc_init
               st1 st2 Hsrv eq_refl A1 A2).
    reflexivity.
  - intros Tk evs FE Hc.
    destruct P1 as [[_ [e1 [FE1 F1]]]|[Tk1 _]]; [|contradiction].
    destruct P2 as [[_ [e2 [FE2 F2]]]|[Tk2 _]]; [|contradiction].
    rewrite FE in FE1, FE2; injection FE1 as <-; injection FE2 as <-.
    unfold finish; simpl.
    rewrite (fallback_loop_repos_indep now1 now2 _ _ evs acc_init acc_init
               st1 st2 Hc eq_refl F1 F2).
    reflexivity.
Qed.

Lemma C8_rerun_generatedAt_and_repos_witness :
  repos out_fixture
  = repos (match main "token" (now_ex + week_us)%Z srv_fixture 5 with
           | Some (Ok o) => o | _ => out_default end) /\
  repos (match main EmptyString now_ex (srv_events [push_ev]) 5 with
         | Some (Ok o) => o | _ => out_default end)
  = repos (match main EmptyString (now_ex + week_us)%Z (srv_events [push_ev]) 5 with
           | Some (Ok o) => o | _ => out_default end).
Proof.
  split.
  - apply (C8_rerun_generatedAt_and_repos "token" srv_fixture 5 now_ex
             (now_ex + week_us)%Z).
    + vm_compute; reflexivity.
    + vm_compute; reflexivity.
    + discriminate.
    + intros fn p; reflexivity.
  - apply (C8_rerun_generatedAt_and_repos EmptyString (srv_events [push_ev]) 5 now_ex
             (now_ex + week_us)%Z) with (evs := [push_ev]).
    + vm_compute; reflexivity.
    + vm_compute; reflexivity.
    + reflexivity.
    + vm_compute; reflexivity.
    + intros ev [<-|[]]; vm_compute; reflexivity.
Defined.

(** ** Further properties of [main] *)

(** *** String order *)

Lemma str_compare_refl s : String.compare s s = Eq.
Proof.
  induction s as [|c s IH]; simpl; [reflexivity|].
  unfold Ascii.compare; rewrite N.compare_refl; exact IH.
Qed.

Lemma str_compare_lt_trans a b c :
  String.compare a b = Lt -> String.compare b c = Lt -> String.compare a c = Lt.
Proof.
  revert b c; induction a as [|x a IH]; intros [|y b] [|z c]; simpl;
    try congruence.
  destruct (Ascii.compare x y) eqn:E1, (Ascii.compare y z) eqn:E2;
    intros H1 H2; try discriminate.
  - apply Ascii.compare_eq_iff in E1, E2; subst.
    unfold Ascii.compare; rewrite N.compare_refl; eauto.
  - apply Ascii.compare_eq_iff in E1; subst; rewrite E2; reflexivity.
  - apply Ascii.compare_eq_iff in E2; subst; rewrite E1; reflexivity.
  - unfold Ascii.compare in *. rewrite N.compare_lt_iff in *.
    assert (E : (N_of_ascii x < N_of_ascii z)%N) by lia.
    apply N.compare_lt_iff in E; rewrite E; reflexivity.
Qed.

Lemma str_leb_compare a b :
  String.leb a b = true <-> String.compare a b = Lt \/ a = b.
Proof.
  unfold String.leb; split.
  - destruct (String.compare a b) eqn:E; intros H; try discriminate.
    + right; now apply String.compare_eq_iff.
    + left; reflexivity.
  - intros [H| ->]; [now rewrite H|now rewrite str_compare_refl].
Qed.

Lemma str_leb_refl s : String.leb s s = true.
Proof. apply str_leb_compare; now right. Qed.

Lemma str_leb_trans a b c :
  String.leb a b = true -> String.leb b c = true -> String.leb a c = true.
Proof.
  rewrite !str_leb_compare. intros [H1| ->] [H2| ->]; auto.
  left; eapply str_compare_lt_trans; eauto.
Qed.

Lemma str_ltb_leb a b : String.ltb a b = true -> String.leb a b = true.
Proof.
  unfold String.ltb, String.leb; destruct (String.compare a b); congruence.
Qed.

Lemma str_ltb_false a b : String.ltb a b = false -> String.leb b a = true.
Proof.
  unfold String.ltb, String.leb; rewrite String.compare_antisym.
  destruct (String.compare b a); simpl; congruence.
Qed.

(** [max] keeps the running value or moves to a larger one. *)
Lemma str_max_bounds cur l :
  (cur = str_max cur l \/ In (str_max cur l) l) /\
  forall x, In x (cur :: l) -> String.leb x (str_max cur l) = true.
Proof.
  revert cur; induction l as [|y l IH]; intros cur; simpl.
  - split; [now left|]. intros x [<-|[]]; apply str_leb_refl.
  - destruct (IH (if String.ltb cur y then y else cur)) as [Hin Hle].
    split.
    + destruct (String.ltb cur y); destruct Hin as [H|H]; auto.
    + intros x [<-|[<-|Hx]].
      * destruct (String.ltb cur y) eqn:E.
        -- apply (str_leb_trans _ y); [now apply str_ltb_leb|].
           apply Hle; now left.
        -- apply Hle; now left.
      * destruct (String.ltb cur y) eqn:E.
        -- apply Hle; now left.
        -- apply (str_leb_trans _ cur); [now apply str_ltb_false|].
           apply Hle; now left.
      * apply Hle; now right.
Qed.

(** *** Dictionaries *)

Lemma dict_get_set_other {V} (k k' : string) (v : V) d :
  k' <> k -> dict_get k' (dict_set k v d) = dict_get k' d.
Proof.
  intros Hne. induction d as [|[k0 v0] d IH]; simpl.
  - apply String.eqb_neq in Hne; now rewrite Hne.
  - destruct (String.eqb k k0) eqn:E; simpl.
    + apply String.eqb_eq in E; subst.
      apply String.eqb_neq in Hne; now rewrite Hne.
    + now rewrite IH.
Qed.

Lemma dict_set_set {V} (k : string) (v1 v2 : V) d :
  dict_set k v2 (dict_set k v1 d) = dict_set k v2 d.
Proof.
  induction d as [|[k0 v0] d IH]; simpl.
  - now rewrite String.eqb_refl.
  - destruct (String.eqb k k0) eqn:E; simpl.
    + now rewrite String.eqb_refl.
    + now rewrite E, IH.
Qed.

Lemma dict_get_In {V} k (d : list (string * V)) v :
  dict_get k d = Some v -> In (k, v) d.
Proof.
  induction d as [|[k0 v0] d IH]; simpl; [discriminate|].
  destruct (String.eqb k k0) eqn:E; intros H.
  - apply String.eqb_eq in E; injection H as <-; subst; now left.
  - right; auto.
Qed.

Lemma dict_set_In {V} k (v : V) d kv :
  In kv (dict_set k v d) -> kv = (k, v) \/ In kv d.
Proof.
  induction d as [|[k0 v0] d IH]; simpl.
  - intros [H|[]]; now left.
  - destruct (String.eqb k k0); simpl; intros [H|H]; auto.
    destruct (IH H); auto.
Qed.

Lemma dict_set_NoDup {V} k (v : V) d :
  NoDup (map fst d) -> NoDup (map fst (dict_set k v d)).
Proof.
  induction d as [|[k0 v0] d IH]; simpl; intros Hnd.
  - constructor; [intros []|constructor].
  - inversion Hnd as [|? ? Hn Hnd']; subst.
    destruct (String.eqb k k0) eqn:E; simpl.
    + apply String.eqb_eq in E; subst; now constructor.
    + constructor; [|auto].
      intros Hin; apply dict_set_keys in Hin as [Hk|Hk]; [|contradiction].
      subst; now rewrite String.eqb_refl in E.
Qed.

Lemma dict_get_set_defined {V} k k' (v : V) d :
  dict_get k d <> None -> dict_get k (dict_set k' v d) <> None.
Proof.
  destruct (String.eqb k k') eqn:E.
  - apply String.eqb_eq in E; subst; rewrite dict_get_set_same; discriminate.
  - apply String.eqb_neq in E; now rewrite dict_get_set_other.
Qed.

(** The entry [record_push] leaves at [repo_name], and nothing else moves. *)
Lemma record_push_get rs repo_name short_name own n created_at k :
  dict_get k (record_push rs repo_name short_name own n created_at) =
  if String.eqb k repo_name then
    Some (match dict_get repo_name rs with
          | Some r =>
              mkRepoSummary (fullName r) (name r) (owner r) (isOwn r)
                (commits r + n)
                (if String.ltb (lastActivity r) created_at then created_at
                 else lastActivity r)
          | None =>
              mkRepoSummary repo_name short_name own
                (String.eqb own GITHUB_USER) n created_at
          end)
  else dict_get k rs.
Proof.
  unfold record_push.
  destruct (String.eqb k repo_name) eqn:Ek.
  - apply String.eqb_eq in Ek; subst k.
    destruct (dict_get repo_name rs) as [r|] eqn:G.
    + rewrite G, dict_get_set_same; simpl.
      destruct (String.ltb (lastActivity r) created_at); reflexivity.
    + rewrite !dict_get_set_same; simpl.
      unfold String.ltb; rewrite str_compare_refl; reflexivity.
  - apply String.eqb_neq in Ek.
    destruct (dict_get repo_name rs) as [r|] eqn:G.
    + rewrite G, dict_get_set_other by exact Ek; reflexivity.
    + rewrite dict_get_set_same, dict_get_set_other, dict_get_set_other
        by exact Ek; reflexivity.
Qed.

Lemma record_push_keys rs repo_name short_name own n created_at :
  NoDup (map fst rs) ->
  NoDup (map fst (record_push rs repo_name short_name own n created_at)).
Proof.
  intros H; unfold record_push.
  destruct (dict_get repo_name rs) eqn:G.
  - rewrite G; now apply dict_set_NoDup.
  - rewrite dict_get_set_same; now repeat apply dict_set_NoDup.
Qed.

Lemma dict_In_get {V} k (v : V) d :
  NoDup (map fst d) -> In (k, v) d -> dict_get k d = Some v.
Proof.
  induction d as [|[k0 v0] d IH]; simpl; intros Hnd Hin; [contradiction|].
  inversion Hnd as [|? ? Hn Hnd']; subst.
  destruct Hin as [E|Hin].
  - injection E as <- <-; now rewrite String.eqb_refl.
  - destruct (String.eqb k k0) eqn:E.
    + apply String.eqb_eq in E; subst.
      exfalso; apply Hn; apply in_map_iff; now exists (k0, v).
    + auto.
Qed.

(** *** The fallback step, case by case *)

Lemma fallback_step_cases now cutoff ev st :
  fallback_step now cutoff ev st =
  if is_push ev then
    match event_time ev with
    | None => Raised ValueError
    | Some t =>
        if (t <? cutoff)%Z then Ok st else
        Ok (mkAcc (record_push (acc_repos st) (ev_repo_name ev)
                     (last (split_on "/" (ev_repo_name ev)) EmptyString)
                     (hd EmptyString (split_on "/" (ev_repo_name ev)))
                     (push_count ev) (ev_created_at ev))
                  (bump now t (push_count ev) (acc_weekly st))
                  (acc_pages st))
    end
  else Ok st.
Proof.
  unfold fallback_step, is_push, event_time, push_count.
  destruct (String.eqb (ev_type ev) "PushEvent"); reflexivity.
Qed.

Lemma Permutation_filter_map {A} (f : A -> bool) l l' :
  Permutation l l' -> Permutation (filter f l) (filter f l').
Proof.
  induction 1; simpl.
  - constructor.
  - destruct (f x); auto.
  - destruct (f x), (f y); auto using perm_swap.
  - eauto using Permutation_trans.
Qed.

(** A dict whose keys are distinct and whose entries carry their key. *)
Lemma keyed_sum k d :
  NoDup (map fst d) ->
  (forall k' r, dict_get k' d = Some r -> fullName r = k') ->
  list_sum (map commits (filter (fun r => String.eqb (fullName r) k) (map snd d)))
  = commits_of k d.
Proof.
  unfold commits_of.
  induction d as [|[k0 v0] d IH]; simpl; intros Hnd Hk; [reflexivity|].
  inversion Hnd as [|? ? Hn Hnd']; subst.
  assert (H0 : fullName v0 = k0) by (apply Hk; now rewrite String.eqb_refl).
  assert (Hk' : forall k' r, dict_get k' d = Some r -> fullName r = k').
  { intros k' r G. apply Hk.
    destruct (String.eqb k' k0) eqn:E; [|exact G].
    apply String.eqb_eq in E; subst k'.
    exfalso; apply Hn. apply dict_get_In in G.
    apply in_map_iff; now exists (k0, r). }
  rewrite H0, (String.eqb_sym k0 k).
  destruct (String.eqb k k0) eqn:E; simpl; rewrite IH by assumption; [|reflexivity].
  apply String.eqb_eq in E; subst k.
  rewrite dict_get_notin by exact Hn. lia.
Qed.

Lemma keyed_In {V} (d : list (string * V)) (r : V) :
  NoDup (map fst d) ->
  In r (map snd d) -> exists k, dict_get k d = Some r.
Proof.
  intros Hnd Hin. apply in_map_iff in Hin as [[k r'] [<- Hin]].
  exists k; now apply dict_In_get.
Qed.

(** *** The fallback loop *)

Lemma fallback_loop_cons now cutoff ev evs st :
  fallback_loop now cutoff (ev :: evs) st =
  rbind (fallback_step now cutoff ev st) (fallback_loop now cutoff evs).
Proof. reflexivity. Qed.

(** Invariants of the fallback dict: distinct keys, and each entry
    carries its key and the owner and short name split from it. *)
Lemma fallback_loop_keyed now cutoff evs st st' :
  fallback_loop now cutoff evs st = Ok st' ->
  NoDup (map fst (acc_repos st)) ->
  (forall k r, dict_get k (acc_repos st) = Some r ->
     fullName r = k /\ owner r = hd EmptyString (split_on "/" k) /\
     name r = last (split_on "/" k) EmptyString) ->
  NoDup (map fst (acc_repos st')) /\
  (forall k r, dict_get k (acc_repos st') = Some r ->
     fullName r = k /\ owner r = hd EmptyString (split_on "/" k) /\
     name r = last (split_on "/" k) EmptyString).
Proof.
  revert st; induction evs as [|ev rest IH]; intros st H Hnd Hk.
  - injection H as <-; auto.
  - rewrite fallback_loop_cons, fallback_step_cases in H.
    destruct (is_push ev); [|exact (IH _ H Hnd Hk)].
    destruct (event_time ev) as [t|]; [|discriminate].
    destruct (t <? cutoff)%Z; [exact (IH _ H Hnd Hk)|].
    apply (IH _ H); simpl; [now apply record_push_keys|].
    intros k r G. rewrite record_push_get in G.
    destruct (String.eqb k (ev_repo_name ev)) eqn:E; [|exact (Hk _ _ G)].
    apply String.eqb_eq in E; subst k.
    destruct (dict_get (ev_repo_name ev) (acc_repos st)) as [r0|] eqn:G0;
      injection G as <-; simpl; [exact (Hk _ _ G0)|repeat split].
Qed.

Lemma fallback_loop_commits now cutoff evs st st' :
  fallback_loop now cutoff evs st = Ok st' ->
  forall k, commits_of k (acc_repos st') =
    (commits_of k (acc_repos st) +
     list_sum (map push_count
       (filter (fun ev => counted cutoff ev && String.eqb (ev_repo_name ev) k) evs)))%nat.
Proof.
  revert st; induction evs as [|ev rest IH]; intros st H k.
  - injection H as <-; simpl; lia.
  - rewrite fallback_loop_cons, fallback_step_cases in H.
    unfold counted; cbn [filter].
    destruct (is_push ev); cbn [andb]; [|exact (IH _ H k)].
    destruct (event_time ev) as [t|]; [|discriminate].
    destruct (t <? cutoff)%Z; cbn [negb andb]; [exact (IH _ H k)|].
    rewrite (IH _ H k); unfold counted; simpl.
    unfold commits_of; rewrite record_push_get, (String.eqb_sym (ev_repo_name ev) k).
    destruct (String.eqb k (ev_repo_name ev)) eqn:E; simpl; [|lia].
    apply String.eqb_eq in E; subst k.
    destruct (dict_get (ev_repo_name ev) (acc_repos st)); simpl; lia.
Qed.

Lemma nth_add_at i j n w :
  (j < List.length w)%nat ->
  nth i (add_at j n w) 0%nat = (nth i w 0 + if (j =? i)%nat then n else 0)%nat.
Proof.
  revert i j; induction w as [|x w IH]; intros i j Hj; simpl in Hj; [lia|].
  destruct j as [|j], i as [|i]; simpl; try lia.
  rewrite IH by lia; reflexivity.
Qed.

Lemma bump_nth now t n w i :
  List.length w = WEEKS ->
  nth i (bump now t n w) 0%nat =
  (nth i w 0 + match bucket_of now t with
               | Some j => if (j =? i)%nat then n else 0
               | None => 0 end)%nat.
Proof.
  intros Hl; unfold bump.
  destruct (bucket_of now t) as [j|] eqn:B; [|lia].
  apply nth_add_at. rewrite Hl. exact (bucket_of_range _ _ _ B).
Qed.

Lemma fallback_loop_slots now cutoff evs st st' :
  fallback_loop now cutoff evs st = Ok st' ->
  List.length (acc_weekly st) = WEEKS ->
  List.length (acc_weekly st') = WEEKS /\
  forall i, nth i (acc_weekly st') 0%nat =
    (nth i (acc_weekly st) 0 +
     list_sum (map push_count
       (filter (fun ev => counted cutoff ev && event_in_slot now i ev) evs)))%nat.
Proof.
  revert st; induction evs as [|ev rest IH]; intros st H Hl.
  - injection H as <-; split; [exact Hl|]; intros i; simpl; lia.
  - rewrite fallback_loop_cons, fallback_step_cases in H.
    destruct (is_push ev) eqn:P.
    2:{ assert (Hc : counted cutoff ev = false) by (unfold counted; now rewrite P).
        destruct (IH _ H Hl) as [Hl' Hn]; split; [exact Hl'|].
        intros i; rewrite Hn; cbn [filter]; now rewrite Hc. }
    destruct (event_time ev) as [t|] eqn:T; [|discriminate].
    destruct (t <? cutoff)%Z eqn:C.
    { assert (Hc : counted cutoff ev = false)
        by (unfold counted; now rewrite P, T, C).
      destruct (IH _ H Hl) as [Hl' Hn]; split; [exact Hl'|].
      intros i; rewrite Hn; cbn [filter]; now rewrite Hc. }
    assert (Hc : counted cutoff ev = true) by (unfold counted; now rewrite P, T, C).
    destruct (IH _ H) as [Hl' Hn]; [simpl; now rewrite bump_length|].
    split; [exact Hl'|]. intros i.
    assert (Hs : event_in_slot now i ev =
                 match bucket_of now t with Some j => (j =? i)%nat | None => false end)
      by (unfold event_in_slot; now rewrite T).
    rewrite Hn; simpl acc_weekly; rewrite bump_nth by exact Hl.
    cbn [filter]; rewrite Hc, Hs.
    destruct (bucket_of now t) as [j|]; [destruct (j =? i)%nat|]; simpl; lia.
Qed.

Lemma filter_filter_andb {A} (f g : A -> bool) l :
  filter f (filter g l) = filter (fun x => g x && f x) l.
Proof.
  induction l as [|x l IH]; simpl; [reflexivity|].
  destruct (g x); simpl; [destruct (f x)|]; now rewrite IH.
Qed.

(** [lastActivity] of each fallback entry is the largest [created_at] of
    the recorded push events of its repository, [D] being those already
    recorded. *)
Lemma fallback_loop_last now cutoff evs st st' D :
  fallback_loop now cutoff evs st = Ok st' ->
  (forall k r, dict_get k (acc_repos st) = Some r ->
     In (lastActivity r)
        (map ev_created_at (filter (fun ev => String.eqb (ev_repo_name ev) k) D)) /\
     forall ev, In ev D -> ev_repo_name ev = k ->
       String.leb (ev_created_at ev) (lastActivity r) = true) ->
  (forall ev, In ev D -> dict_get (ev_repo_name ev) (acc_repos st) <> None) ->
  let D' := D ++ filter (counted cutoff) evs in
  (forall k r, dict_get k (acc_repos st') = Some r ->
     In (lastActivity r)
        (map ev_created_at (filter (fun ev => String.eqb (ev_repo_name ev) k) D')) /\
     forall ev, In ev D' -> ev_repo_name ev = k ->
       String.leb (ev_created_at ev) (lastActivity r) = true) /\
  (forall ev, In ev D' -> dict_get (ev_repo_name ev) (acc_repos st') <> None).
Proof.
  revert st D; induction evs as [|ev rest IH]; intros st D H Hinv Hdef D'.
  - injection H as <-. unfold D'; simpl; rewrite app_nil_r; auto.
  - unfold D'; clear D'.
    rewrite fallback_loop_cons, fallback_step_cases in H.
    destruct (is_push ev) eqn:P.
    2:{ assert (Hc : counted cutoff ev = false) by (unfold counted; now rewrite P).
        cbn [filter]; rewrite Hc. exact (IH _ _ H Hinv Hdef). }
    destruct (event_time ev) as [t|] eqn:T; [|discriminate].
    destruct (t <? cutoff)%Z eqn:C.
    { assert (Hc : counted cutoff ev = false)
        by (unfold counted; now rewrite P, T, C).
      cbn [filter]; rewrite Hc. exact (IH _ _ H Hinv Hdef). }
    assert (Hc : counted cutoff ev = true) by (unfold counted; now rewrite P, T, C).
    cbn [filter]; rewrite Hc.
    replace (D ++ ev :: filter (counted cutoff) rest)
      with ((D ++ [ev]) ++ filter (counted cutoff) rest)
      by now rewrite <- app_assoc.
    apply (IH _ _ H); simpl acc_repos.
    + intros k r G. rewrite record_push_get in G.
      rewrite filter_app; cbn [filter].
      destruct (String.eqb k (ev_repo_name ev)) eqn:E.
      * apply String.eqb_eq in E; subst k.
        rewrite String.eqb_refl, map_app; cbn [map].
        destruct (dict_get (ev_repo_name ev) (acc_repos st)) as [r0|] eqn:G0;
          injection G as <-; simpl lastActivity.
        -- destruct (Hinv _ _ G0) as [Hin Hle].
           destruct (String.ltb (lastActivity r0) (ev_created_at ev)) eqn:L.
           ++ split; [apply in_or_app; right; now left|].
              intros ev' Hev' Hk. apply in_app_or in Hev' as [Hev'|[<-|[]]].
              ** apply (str_leb_trans _ (lastActivity r0)); [now apply Hle|].
                 now apply str_ltb_leb.
              ** apply str_leb_refl.
           ++ split; [apply in_or_app; now left|].
              intros ev' Hev' Hk. apply in_app_or in Hev' as [Hev'|[<-|[]]].
              ** now apply Hle.
              ** now apply str_ltb_false.
        -- split; [apply in_or_app; right; now left|].
           intros ev' Hev' Hk. apply in_app_or in Hev' as [Hev'|[<-|[]]].
           ++ exfalso; apply (Hdef _ Hev'); now rewrite Hk.
           ++ apply str_leb_refl.
      * rewrite (String.eqb_sym (ev_repo_name ev) k), E.
        change (if false then [ev] else []) with (@nil Event); rewrite app_nil_r.
        destruct (Hinv _ _ G) as [Hin Hle]. split; [exact Hin|].
        intros ev' Hev' Hk. apply in_app_or in Hev' as [Hev'|[<-|[]]].
        -- now apply Hle.
        -- subst k; now rewrite String.eqb_refl in E.
    + intros ev' Hev'. rewrite record_push_get.
      destruct (String.eqb (ev_repo_name ev') (ev_repo_name ev)) eqn:E;
        [discriminate|].
      apply in_app_or in Hev' as [Hev'|[<-|[]]]; [now apply Hdef|].
      now rewrite String.eqb_refl in E.
Qed.

(** The fallback loop ignores the events other than push events and the
    push events before the cutoff: running it on the events that remain
    gives the same result, errors included. *)
Theorem fallback_loop_skips now cutoff evs st :
  fallback_loop now cutoff evs st =
  fallback_loop now cutoff (filter (not_skipped cutoff) evs) st.
Proof.
  revert st; induction evs as [|ev rest IH]; intros st; [reflexivity|].
  cbn [filter]. destruct (not_skipped cutoff ev) eqn:K.
  - rewrite !fallback_loop_cons.
    destruct (fallback_step now cutoff ev st); cbn [rbind]; [apply IH|reflexivity].
  - rewrite fallback_loop_cons, fallback_step_cases. unfold not_skipped in K.
    destruct (is_push ev); cbn [rbind]; [|apply IH].
    destruct (event_time ev) as [t|]; [|discriminate].
    destruct (t <? cutoff)%Z; [apply IH|discriminate].
Qed.


Lemma split_on_one (sep : ascii) o n :
  ~ In sep (list_ascii_of_string o) -> ~ In sep (list_ascii_of_string n) ->
  split_on sep (o ++ String sep n) = [o; n].
Proof.
  assert (Hn : forall s, ~ In sep (list_ascii_of_string s) -> split_on sep s = [s]).
  { induction s as [|c s IH]; simpl; intros H; [reflexivity|].
    destruct (Ascii.eqb c sep) eqn:E.
    - apply Ascii.eqb_eq in E; subst; tauto.
    - rewrite IH by tauto; reflexivity. }
  induction o as [|c o IH]; simpl; intros Ho Hnn.
  - rewrite Ascii.eqb_refl, Hn by exact Hnn; reflexivity.
  - destruct (Ascii.eqb c sep) eqn:E.
    + apply Ascii.eqb_eq in E; subst; tauto.
    + rewrite IH by tauto; reflexivity.
Qed.

(** *** The authenticated loop *)

Lemma bucket_commits_slots now cms w w' :
  bucket_commits now cms w = Ok w' ->
  List.length w = WEEKS ->
  List.length w' = WEEKS /\
  (forall i, nth i w' 0%nat =
     (nth i w 0 + List.length (filter (commit_in_slot now i) cms))%nat) /\
  (forall c, In c cms -> fromisoformat (replace_Z (commit_author_date c)) <> None).
Proof.
  revert w; induction cms as [|c cms IH]; simpl; intros w H Hl.
  - injection H as <-; repeat split; [exact Hl|intros i; lia|intros c []].
  - destruct (fromisoformat (replace_Z (commit_author_date c))) as [t|] eqn:T;
      [|discriminate].
    destruct (IH _ H) as [Hl' [Hn Hp]]; [now rewrite bump_length|].
    repeat split; [exact Hl'| |].
    + intros i. rewrite Hn, bump_nth by exact Hl.
      assert (Hs : commit_in_slot now i c =
                   match bucket_of now t with Some j => (j =? i)%nat | None => false end)
        by (unfold commit_in_slot; now rewrite T).
      cbn [filter]; rewrite Hs.
      destruct (bucket_of now t) as [j|]; [destruct (j =? i)%nat|]; simpl; lia.
    + intros c' [<-|Hc]; [rewrite T; discriminate|auto].
Qed.

Lemma discover_pages_site ri ps :
  discover_pages ri ps = ps ++ (if has_site ri then [site_of ri] else []).
Proof.
  unfold discover_pages, has_site, site_of.
  destruct (ri_has_pages ri), (ri_fork ri),
    (String.eqb (ri_name ri) (GITHUB_USER ++ ".github.io")); simpl;
    try rewrite app_nil_r; reflexivity.
Qed.

Lemma auth_loop_pages_exact srv fuel now cutoff all_repos st st' :
  auth_loop srv fuel now cutoff all_repos st = Some (Ok st') ->
  acc_pages st' = acc_pages st ++ map site_of (filter has_site all_repos).
Proof.
  revert st; induction all_repos as [|ri rest IH]; simpl; intros st H.
  - injection H as <-; now rewrite app_nil_r.
  - assert (Hd : forall ps, discover_pages ri ps ++ map site_of (filter has_site rest)
                            = ps ++ map site_of (filter has_site (ri :: rest))).
    { intros ps; rewrite discover_pages_site; cbn [filter].
      destruct (has_site ri); simpl; [now rewrite <- app_assoc|now rewrite app_nil_r]. }
    destruct (fetch_repo_commits srv fuel (ri_full_name ri) cutoff)
      as [[[|c cs]|e]|]; try discriminate.
    + rewrite (IH _ H); apply Hd.
    + destruct (bucket_commits now (c :: cs) (acc_weekly st)) as [w|e];
        [|discriminate].
      rewrite (IH _ H); apply Hd.
Qed.

Lemma auth_loop_slots srv fuel now cutoff all_repos st st' :
  auth_loop srv fuel now cutoff all_repos st = Some (Ok st') ->
  List.length (acc_weekly st) = WEEKS ->
  List.length (acc_weekly st') = WEEKS /\
  (forall i, nth i (acc_weekly st') 0%nat =
     (nth i (acc_weekly st) 0 +
      list_sum (map (fun ri => List.length
                       (filter (commit_in_slot now i)
                          (repo_commits srv fuel cutoff ri))) all_repos))%nat) /\
  (forall ri c, In ri all_repos -> In c (repo_commits srv fuel cutoff ri) ->
     fromisoformat (replace_Z (commit_author_date c)) <> None).
Proof.
  revert st; induction all_repos as [|ri rest IH]; simpl; intros st H Hl.
  - injection H as <-; repeat split; [exact Hl|intros i; lia|intros ri c []].
  - unfold repo_commits at 1 3.
    destruct (fetch_repo_commits srv fuel (ri_full_name ri) cutoff)
      as [[[|c cs]|e]|] eqn:F; try discriminate.
    + destruct (IH _ H Hl) as [Hl' [Hn Hp]]; simpl in Hn.
      repeat split; [exact Hl'| |].
      * intros i; rewrite Hn; simpl; lia.
      * intros ri' c' [<-|Hri] Hc; [unfold repo_commits in Hc; rewrite F in Hc;
          destruct Hc|eauto].
    + destruct (bucket_commits now (c :: cs) (acc_weekly st)) as [w|e] eqn:B;
        [|discriminate].
      destruct (bucket_commits_slots _ _ _ _ B Hl) as [Hlw [Hnw Hpw]].
      destruct (IH _ H Hlw) as [Hl' [Hn Hp]]; simpl in Hn.
      repeat split; [exact Hl'| |].
      * intros i; rewrite Hn, Hnw; lia.
      * intros ri' c' [<-|Hri] Hc; [|eauto].
        unfold repo_commits in Hc; rewrite F in Hc; auto.
Qed.

(** The entries of the authenticated dict, for a loop over a part [rest]
    of the listing [all0]. *)
Lemma auth_loop_entries srv fuel now cutoff all0 rest st st' :
  auth_loop srv fuel now cutoff rest st = Some (Ok st') ->
  incl rest all0 ->
  NoDup (map fst (acc_repos st)) ->
  (forall k r, dict_get k (acc_repos st) = Some r ->
     exists ri, In ri all0 /\ k = ri_full_name ri /\ auth_entry srv fuel cutoff ri r) ->
  NoDup (map fst (acc_repos st')) /\
  (forall k r, dict_get k (acc_repos st') = Some r ->
     exists ri, In ri all0 /\ k = ri_full_name ri /\ auth_entry srv fuel cutoff ri r) /\
  (forall k, dict_get k (acc_repos st) <> None -> dict_get k (acc_repos st') <> None) /\
  (forall ri, In ri rest -> repo_commits srv fuel cutoff ri <> [] ->
     dict_get (ri_full_name ri) (acc_repos st') <> None).
Proof.
  revert st; induction rest as [|ri rest IH]; simpl; intros st H Hinc Hnd Hk.
  - injection H as <-; repeat split; auto; intros ri [].
  - assert (Hri : In ri all0) by (apply Hinc; now left).
    assert (Hinc' : incl rest all0) by (intros x Hx; apply Hinc; now right).
    destruct (fetch_repo_commits srv fuel (ri_full_name ri) cutoff)
      as [[[|c cs]|e]|] eqn:F; try discriminate.
    + destruct (IH _ H Hinc' Hnd Hk) as [Hnd' [Hk' [Hp Hc]]].
      repeat split; auto.
      intros ri' [<-|Hin] Hne; [|auto].
      unfold repo_commits in Hne; rewrite F in Hne; congruence.
    + destruct (bucket_commits now (c :: cs) (acc_weekly st)) as [w|e];
        [|discriminate].
      destruct (IH _ H Hinc') as [Hnd' [Hk' [Hp Hc]]]; simpl acc_repos.
      * now apply dict_set_NoDup.
      * intros k r G.
        destruct (String.eqb k (ri_full_name ri)) eqn:E.
        -- apply String.eqb_eq in E; subst k.
           rewrite dict_get_set_same in G; injection G as <-.
           exists ri; repeat split; try assumption.
           all: unfold repo_commits; rewrite F; simpl; try congruence.
           ++ pose proof (proj1 (str_max_bounds (commit_author_date c)
                                   (map commit_author_date cs))) as [Hm|Hm];
                [left|right]; congruence.
           ++ intros c' Hc'. apply (proj2 (str_max_bounds _ _)).
              change (commit_author_date c :: map commit_author_date cs)
                with (map commit_author_date (c :: cs)).
              now apply in_map.
        -- apply String.eqb_neq in E.
           rewrite dict_get_set_other in G by exact E. now apply Hk.
      * repeat split; [exact Hnd'|exact Hk'| |].
        -- intros k Hd; apply Hp; simpl; now apply dict_get_set_defined.
        -- intros ri' [<-|Hin] Hne; [|auto].
           apply Hp; simpl; rewrite dict_get_set_same; discriminate.
Qed.

(** *** Sorting and the output fields *)

Lemma insert_repo_filter n r l :
  filter (fun x => (commits x =? n)%nat) (insert_repo r l) =
  filter (fun x => (commits x =? n)%nat) (r :: l).
Proof.
  induction l as [|y l IH]; simpl; [reflexivity|].
  destruct (commits y <=? commits r)%nat eqn:E; [reflexivity|].
  apply Nat.leb_gt in E. cbn [filter]; rewrite IH; cbn [filter].
  destruct (commits r =? n)%nat eqn:Er, (commits y =? n)%nat eqn:Ey;
    try reflexivity.
  apply Nat.eqb_eq in Er, Ey; lia.
Qed.

Lemma insert_site_filter s p l :
  filter (fun x => String.eqb (lower (site_name x)) s) (insert_site p l) =
  filter (fun x => String.eqb (lower (site_name x)) s) (p :: l).
Proof.
  induction l as [|y l IH]; simpl; [reflexivity|].
  destruct (String.leb (lower (site_name p)) (lower (site_name y))) eqn:E;
    [reflexivity|].
  cbn [filter]; rewrite IH; cbn [filter].
  destruct (String.eqb (lower (site_name p)) s) eqn:Ep,
    (String.eqb (lower (site_name y)) s) eqn:Ey; try reflexivity.
  apply String.eqb_eq in Ep, Ey. rewrite Ep, <- Ey, str_leb_refl in E.
  discriminate.
Qed.

Lemma filter_zero_le w :
  (List.length (filter (fun x => (0 <? x)%nat) w) <= list_sum w)%nat /\
  (List.length (filter (fun x => (0 <? x)%nat) w) <= List.length w)%nat.
Proof.
  induction w as [|x w IH]; simpl; [lia|].
  destruct (0 <? x)%nat eqn:E; simpl; [apply Nat.ltb_lt in E|]; lia.
Qed.

Lemma keyed_names (d : list (string * RepoSummary)) :
  NoDup (map fst d) ->
  (forall k r, dict_get k d = Some r -> fullName r = k) ->
  map fullName (map snd d) = map fst d.
Proof.
  intros Hnd Hk. rewrite map_map. apply map_ext_in.
  intros [k r] Hin; simpl. apply Hk, dict_In_get; assumption.
Qed.

Lemma fallback_loop_pos now cutoff evs st st' :
  fallback_loop now cutoff evs st = Ok st' ->
  (forall k r, dict_get k (acc_repos st) = Some r -> (1 <= commits r)%nat) ->
  (forall k r, dict_get k (acc_repos st') = Some r -> (1 <= commits r)%nat).
Proof.
  revert st; induction evs as [|ev rest IH]; intros st H Hp.
  - now injection H as <-.
  - rewrite fallback_loop_cons, fallback_step_cases in H.
    destruct (is_push ev); [|exact (IH _ H Hp)].
    destruct (event_time ev) as [t|]; [|discriminate].
    destruct (t <? cutoff)%Z; [exact (IH _ H Hp)|].
    apply (IH _ H); simpl acc_repos. intros k r G.
    assert (Hc : (1 <= push_count ev)%nat).
    { unfold push_count. destruct (List.length _ =? 0)%nat eqn:E;
        [lia|apply Nat.eqb_neq in E; lia]. }
    rewrite record_push_get in G.
    destruct (String.eqb k (ev_repo_name ev)); [|exact (Hp _ _ G)].
    destruct (dict_get (ev_repo_name ev) (acc_repos st));
      injection G as <-; simpl; lia.
Qed.

(** The dict invariants of both paths of [main], on a successful run. *)
Lemma main_ok_dict token now srv fuel o :
  main token now srv fuel = Some (Ok o) ->
  exists st, o = finish now st /\
    NoDup (map fst (acc_repos st)) /\
    (forall k r, dict_get k (acc_repos st) = Some r ->
       fullName r = k /\ (1 <= commits r)%nat) /\
    List.length (acc_weekly st) = WEEKS.
Proof.
  intros H. destruct (main_ok_cases _ _ _ _ _ H)
    as [st [-> [[_ [evs [_ F]]]|[_ [all_repos [_ A]]]]]];
    exists st; split; try reflexivity.
  - destruct (fallback_loop_keyed _ _ _ acc_init _ F (NoDup_nil _))
      as [Hnd Hk]; [discriminate|].
    pose proof (fallback_loop_pos _ _ _ acc_init _ F) as Hp.
    split; [exact Hnd|]. split.
    + intros k r G; split; [exact (proj1 (Hk _ _ G))|].
      refine (Hp _ _ _ G); discriminate.
    + exact (proj1 (fallback_loop_slots _ _ _ acc_init _ F eq_refl)).
  - destruct (auth_loop_entries _ _ _ _ all_repos _ acc_init _ A
                (incl_refl _) (NoDup_nil _)) as [Hnd [Hk _]]; [discriminate|].
    split; [exact Hnd|]. split.
    + intros k r G; destruct (Hk _ _ G) as [ri [_ [Hkr [Hne [Hf [_ [_ [Hc _]]]]]]]].
      split; [congruence|]. rewrite Hc.
      destruct (repo_commits srv fuel (cutoff_of now) ri); [congruence|simpl; lia].
    + exact (proj1 (auth_loop_slots _ _ _ _ _ acc_init _ A eq_refl)).
Qed.

(** *** Output fields on both paths *)

(** On every successful run, [weeklyCommits] has one slot per week of the
    window, and [activeWeeks] is at most that number of slots and at most
    [totalCommits]. *)
Theorem main_weekly_shape token now srv fuel o :
  main token now srv fuel = Some (Ok o) ->
  List.length (weeklyCommits o) = WEEKS /\
  (activeWeeks o <= WEEKS)%nat /\ (activeWeeks o <= totalCommits o)%nat.
Proof.
  intros H. destruct (main_ok_dict _ _ _ _ _ H) as [st [-> [_ [_ Hl]]]].
  unfold finish; simpl. destruct (filter_zero_le (acc_weekly st)) as [H1 H2].
  rewrite Hl in H2. repeat split; assumption.
Qed.

Lemma main_weekly_shape_witness :
  List.length (weeklyCommits out_fixture) = WEEKS /\
  (activeWeeks out_fixture <= WEEKS)%nat /\
  (activeWeeks out_fixture <= totalCommits out_fixture)%nat.
Proof.
  apply (main_weekly_shape "token" now_ex srv_fixture 5).
  vm_compute; reflexivity.
Defined.

(** On every successful run, no two entries of [repos] share a
    [fullName], and every entry has at least one commit. *)
Theorem main_repos_distinct_nonzero token now srv fuel o :
  main token now srv fuel = Some (Ok o) ->
  NoDup (map fullName (repos o)) /\
  (forall r, In r (repos o) -> (1 <= commits r)%nat).
Proof.
  intros H. destruct (main_ok_dict _ _ _ _ _ H) as [st [-> [Hnd [Hk _]]]].
  unfold finish; simpl. split.
  - apply (Permutation_NoDup
             (Permutation_sym (Permutation_map fullName (sort_repos_perm _)))).
    rewrite keyed_names; [exact Hnd|exact Hnd|].
    intros k r G; exact (proj1 (Hk _ _ G)).
  - intros r Hr. apply (Permutation_in _ (sort_repos_perm _)) in Hr.
    destruct (keyed_In _ _ Hnd Hr) as [k G]. exact (proj2 (Hk _ _ G)).
Qed.

Lemma main_repos_distinct_nonzero_witness :
  NoDup (map fullName (repos out_fallback)) /\
  (forall r, In r (repos out_fallback) -> (1 <= commits r)%nat).
Proof.
  apply (main_repos_distinct_nonzero EmptyString now_ex (srv_events evs_fallback) 5).
  vm_compute; reflexivity.
Defined.

(** Python's [sorted] is stable: entries of [repos] with the same
    [commits] keep the order they have in the dict. *)
Theorem sort_repos_stable l n :
  filter (fun r => (commits r =? n)%nat) (sort_repos l) =
  filter (fun r => (commits r =? n)%nat) l.
Proof.
  induction l as [|r l IH]; simpl; [reflexivity|].
  rewrite insert_repo_filter; cbn [filter]; now rewrite IH.
Qed.

(** [list.sort] is stable: Pages entries whose lowercased names are equal
    keep the order in which they were discovered. *)
Theorem sort_pages_stable l s :
  filter (fun p => String.eqb (lower (site_name p)) s) (sort_pages l) =
  filter (fun p => String.eqb (lower (site_name p)) s) l.
Proof.
  induction l as [|p l IH]; simpl; [reflexivity|].
  rewrite insert_site_filter; cbn [filter]; now rewrite IH.
Qed.

(** *** The unauthenticated fallback *)

Lemma main_fallback_eq now srv fuel evs :
  fetch_public_events srv = Ok evs ->
  main EmptyString now srv fuel =
  Some (rbind (fallback_loop now (cutoff_of now) evs acc_init)
              (fun st => Ok (finish now st))).
Proof. intros FE; unfold main; rewrite FE; reflexivity. Qed.

(** Without a credential, the [commits] of the entry for a repository is
    the sum, over the push events of that repository not older than the
    cutoff, of their commit counts (1 for a push without listed commits);
    a repository with no such event has no entry. *)
Theorem fallback_repo_commits now srv fuel evs o :
  fetch_public_events srv = Ok evs ->
  main EmptyString now srv fuel = Some (Ok o) ->
  forall k,
    list_sum (map commits (filter (fun r => String.eqb (fullName r) k) (repos o))) =
    list_sum (map push_count
      (filter (fun ev => counted (cutoff_of now) ev && String.eqb (ev_repo_name ev) k) evs)).
Proof.
  intros FE H k. rewrite (main_fallback_eq _ _ _ _ FE) in H.
  destruct (fallback_loop now (cutoff_of now) evs acc_init) as [st|e] eqn:F;
    cbn [rbind] in H; [|discriminate].
  injection H as <-. unfold finish; simpl.
  rewrite (Permutation_list_sum (Permutation_map commits
             (Permutation_filter_map _ _ _ (sort_repos_perm _)))).
  destruct (fallback_loop_keyed _ _ _ acc_init _ F (NoDup_nil _)) as [Hnd Hk];
    [discriminate|].
  rewrite keyed_sum; [|exact Hnd|intros k' r G; exact (proj1 (Hk _ _ G))].
  rewrite (fallback_loop_commits _ _ _ _ _ F k). reflexivity.
Qed.

Lemma fallback_repo_commits_witness :
  map (fun k => list_sum (map commits
         (filter (fun r => String.eqb (fullName r) k) (repos out_fallback))))
      ["radaiko/site"; "other/lib"; "radaiko/old"]%string = [4; 2; 0]%nat /\
  forall k,
    list_sum (map commits (filter (fun r => String.eqb (fullName r) k) (repos out_fallback))) =
    list_sum (map push_count
      (filter (fun ev => counted (cutoff_of now_ex) ev && String.eqb (ev_repo_name ev) k)
         evs_fallback)).
Proof.
  split; [vm_compute; reflexivity|].
  apply (fallback_repo_commits now_ex (srv_events evs_fallback) 5);
    vm_compute; reflexivity.
Defined.

(** Without a credential, slot [i] of [weeklyCommits] is the sum of the
    commit counts of the push events not older than the cutoff whose
    date falls in that slot. *)
Theorem fallback_weekly_slots now srv fuel evs o :
  fetch_public_events srv = Ok evs ->
  main EmptyString now srv fuel = Some (Ok o) ->
  forall i, nth i (weeklyCommits o) 0%nat =
    list_sum (map push_count
      (filter (fun ev => counted (cutoff_of now) ev && event_in_slot now i ev) evs)).
Proof.
  intros FE H i. rewrite (main_fallback_eq _ _ _ _ FE) in H.
  destruct (fallback_loop now (cutoff_of now) evs acc_init) as [st|e] eqn:F;
    cbn [rbind] in H; [|discriminate].
  injection H as <-. unfold finish; simpl.
  destruct (fallback_loop_slots _ _ _ _ _ F eq_refl) as [_ Hn].
  rewrite Hn. change (acc_weekly acc_init) with (repeat 0%nat WEEKS).
  rewrite nth_repeat. reflexivity.
Qed.

Lemma fallback_weekly_slots_witness :
  weeklyCommits out_fallback = [0; 0; 0; 0; 0; 0; 0; 0; 0; 0; 2; 4]%nat /\
  forall i, nth i (weeklyCommits out_fallback) 0%nat =
    list_sum (map push_count
      (filter (fun ev => counted (cutoff_of now_ex) ev && event_in_slot now_ex i ev)
         evs_fallback)).
Proof.
  split; [vm_compute; reflexivity|].
  apply (fallback_weekly_slots now_ex (srv_events evs_fallback) 5);
    vm_compute; reflexivity.
Defined.

(** Without a credential, the [lastActivity] of an entry is the
    [created_at] of one of the counted push events of its repository, and
    no counted push event of that repository has a later [created_at] in
    string order. *)
Theorem fallback_last_activity now srv fuel evs o :
  fetch_public_events srv = Ok evs ->
  main EmptyString now srv fuel = Some (Ok o) ->
  forall r, In r (repos o) ->
    In (lastActivity r)
       (map ev_created_at
          (filter (fun ev => counted (cutoff_of now) ev &&
                             String.eqb (ev_repo_name ev) (fullName r)) evs)) /\
    (forall ev, In ev evs -> counted (cutoff_of now) ev = true ->
       ev_repo_name ev = fullName r ->
       String.leb (ev_created_at ev) (lastActivity r) = true).
Proof.
  intros FE H r Hr. rewrite (main_fallback_eq _ _ _ _ FE) in H.
  destruct (fallback_loop now (cutoff_of now) evs acc_init) as [st|e] eqn:F;
    cbn [rbind] in H; [|discriminate].
  injection H as <-. unfold finish in Hr; simpl in Hr.
  destruct (fallback_loop_keyed _ _ _ acc_init _ F (NoDup_nil _)) as [Hnd Hk];
    [discriminate|].
  apply (Permutation_in _ (sort_repos_perm _)) in Hr.
  destruct (keyed_In _ _ Hnd Hr) as [k G].
  destruct (fallback_loop_last _ _ _ acc_init _ [] F) as [Hl _];
    [discriminate|intros ev []|].
  destruct (Hl _ _ G) as [Hin Hle]. simpl in Hin, Hle.
  rewrite (proj1 (Hk _ _ G)). split.
  - rewrite filter_filter_andb in Hin. exact Hin.
  - intros ev Hev Hc Hn. apply Hle; [|exact Hn].
    apply filter_In; now split.
Qed.

Lemma fallback_last_activity_witness :
  map lastActivity (repos out_fallback) =
    ["2024-05-31T00:00:00Z"; "2024-05-20T00:00:00Z"]%string /\
  forall r, In r (repos out_fallback) ->
    In (lastActivity r)
       (map ev_created_at
          (filter (fun ev => counted (cutoff_of now_ex) ev &&
                             String.eqb (ev_repo_name ev) (fullName r)) evs_fallback)) /\
    (forall ev, In ev evs_fallback -> counted (cutoff_of now_ex) ev = true ->
       ev_repo_name ev = fullName r ->
       String.leb (ev_created_at ev) (lastActivity r) = true).
Proof.
  split; [vm_compute; reflexivity|].
  apply (fallback_last_activity now_ex (srv_events evs_fallback) 5);
    vm_compute; reflexivity.
Defined.

(** Without a credential, an entry whose [fullName] is [own/n], with no
    further ['/'], has [owner] [own] and [name] [n]. *)
Theorem fallback_owner_name now srv fuel o :
  main EmptyString now srv fuel = Some (Ok o) ->
  forall r own n, In r (repos o) -> fullName r = (own ++ "/" ++ n)%string ->
    no_slash own -> no_slash n -> owner r = own /\ name r = n.
Proof.
  intros H r own n Hr Hf Ho Hn.
  destruct (main_ok_cases _ _ _ _ _ H)
    as [st [-> [[_ [evs [_ F]]]|[Tk _]]]]; [|congruence].
  unfold finish in Hr; simpl in Hr.
  destruct (fallback_loop_keyed _ _ _ acc_init _ F (NoDup_nil _)) as [Hnd Hk];
    [discriminate|].
  apply (Permutation_in _ (sort_repos_perm _)) in Hr.
  destruct (keyed_In _ _ Hnd Hr) as [k G].
  destruct (Hk _ _ G) as [Hkf [Ho' Hn']].
  rewrite Hkf in Hf; subst k.
  assert (Hs : split_on "/" (own ++ "/" ++ n) = [own; n])
    by (apply split_on_one; assumption).
  rewrite Hs in Ho', Hn'. split; assumption.
Qed.

Lemma fallback_owner_name_witness :
  In (hd repo_default (repos out_fallback)) (repos out_fallback) /\
  fullName (hd repo_default (repos out_fallback)) = ("radaiko" ++ "/" ++ "site")%string /\
  owner (hd repo_default (repos out_fallback)) = "radaiko"%string /\
  name (hd repo_default (repos out_fallback)) = "site"%string.
Proof.
  assert (Hin : In (hd repo_default (repos out_fallback)) (repos out_fallback))
    by (vm_compute; left; reflexivity).
  assert (Hf : fullName (hd repo_default (repos out_fallback))
               = ("radaiko" ++ "/" ++ "site")%string) by (vm_compute; reflexivity).
  destruct (fallback_owner_name now_ex (srv_events evs_fallback) 5 out_fallback
              ltac:(vm_compute; reflexivity) _ "radaiko" "site" Hin Hf)
    as [Ho Hn]; [unfold no_slash; simpl; intuition discriminate
                |unfold no_slash; simpl; intuition discriminate|].
  repeat split; assumption.
Defined.


(** *** The authenticated path *)

Lemma main_auth_loop token now srv fuel all_repos o :
  token <> EmptyString ->
  fetch_all_repos srv fuel = Some (Ok all_repos) ->
  main token now srv fuel = Some (Ok o) ->
  exists st, o = finish now st /\
    auth_loop srv fuel now (cutoff_of now) all_repos acc_init = Some (Ok st).
Proof.
  intros Tk FA H.
  destruct (main_ok_cases _ _ _ _ _ H)
    as [st [-> [[Tk' _]|[_ [all' [FA' A]]]]]]; [contradiction|].
  rewrite FA in FA'; injection FA' as <-. eauto.
Qed.

(** With a credential, every entry of [repos] comes from a listed
    repository with a nonempty commit list: it has that repository's full
    name, name and owner, its number of commits, and as [lastActivity] the
    largest of its commit dates in string order. *)
Theorem auth_repos_sound token now srv fuel all_repos o :
  token <> EmptyString ->
  fetch_all_repos srv fuel = Some (Ok all_repos) ->
  main token now srv fuel = Some (Ok o) ->
  forall r, In r (repos o) ->
    exists ri, In ri all_repos /\ auth_entry srv fuel (cutoff_of now) ri r.
Proof.
  intros Tk FA H r Hr.
  destruct (main_auth_loop _ _ _ _ _ _ Tk FA H) as [st [-> A]].
  destruct (auth_loop_entries _ _ _ _ all_repos _ acc_init _ A
              (incl_refl _) (NoDup_nil _)) as [Hnd [Hk _]]; [discriminate|].
  unfold finish in Hr; simpl in Hr.
  apply (Permutation_in _ (sort_repos_perm _)) in Hr.
  destruct (keyed_In _ _ Hnd Hr) as [k G].
  destruct (Hk _ _ G) as [ri [Hri [_ He]]]. eauto.
Qed.

Lemma auth_repos_sound_witness :
  In (hd repo_default (repos out_fixture)) (repos out_fixture) /\
  exists ri, In ri [repo_x; repo_y] /\
    auth_entry srv_fixture 5 (cutoff_of now_ex) ri (hd repo_default (repos out_fixture)).
Proof.
  assert (Hin : In (hd repo_default (repos out_fixture)) (repos out_fixture))
    by (vm_compute; left; reflexivity).
  split; [exact Hin|].
  apply (auth_repos_sound "token" now_ex srv_fixture 5 [repo_x; repo_y] out_fixture);
    [discriminate|vm_compute; reflexivity|vm_compute; reflexivity|exact Hin].
Defined.

(** With a credential, every listed repository whose commit list is
    nonempty has an entry in [repos] with its full name and its number
    of commits. *)
Theorem auth_repos_complete token now srv fuel all_repos o :
  token <> EmptyString ->
  fetch_all_repos srv fuel = Some (Ok all_repos) ->
  main token now srv fuel = Some (Ok o) ->
  forall ri, In ri all_repos -> repo_commits srv fuel (cutoff_of now) ri <> [] ->
    exists r, In r (repos o) /\ fullName r = ri_full_name ri /\
      commits r = List.length (repo_commits srv fuel (cutoff_of now) ri).
Proof.
  intros Tk FA H ri Hri Hne.
  destruct (main_auth_loop _ _ _ _ _ _ Tk FA H) as [st [-> A]].
  destruct (auth_loop_entries _ _ _ _ all_repos _ acc_init _ A
              (incl_refl _) (NoDup_nil _)) as [Hnd [Hk [_ Hc]]]; [discriminate|].
  specialize (Hc _ Hri Hne).
  destruct (dict_get (ri_full_name ri) (acc_repos st)) as [r|] eqn:G;
    [|congruence].
  exists r. unfold finish; simpl. split.
  - apply (Permutation_in _ (Permutation_sym (sort_repos_perm _))).
    apply in_map_iff; exists (ri_full_name ri, r); split; [reflexivity|].
    now apply dict_get_In.
  - destruct (Hk _ _ G) as [ri' [_ [Hk' [_ [Hf [_ [_ [Hn _]]]]]]]].
    split; [congruence|]. rewrite Hn. unfold repo_commits. now rewrite Hk'.
Qed.

Lemma auth_repos_complete_witness :
  In repo_y [repo_x; repo_y] /\
  repo_commits srv_fixture 5 (cutoff_of now_ex) repo_y <> [] /\
  exists r, In r (repos out_fixture) /\ fullName r = ri_full_name repo_y /\
    commits r = List.length (repo_commits srv_fixture 5 (cutoff_of now_ex) repo_y).
Proof.
  assert (Hin : In repo_y [repo_x; repo_y]) by (right; left; reflexivity).
  assert (Hne : repo_commits srv_fixture 5 (cutoff_of now_ex) repo_y <> [])
    by (vm_compute; discriminate).
  split; [exact Hin|split; [exact Hne|]].
  apply (auth_repos_complete "token" now_ex srv_fixture 5 [repo_x; repo_y] out_fixture);
    [discriminate|vm_compute; reflexivity|vm_compute; reflexivity|exact Hin|exact Hne].
Defined.

(** With a credential, slot [i] of [weeklyCommits] is the number of
    fetched commits, over all listed repositories, whose date falls in
    that slot. *)
Theorem auth_weekly_slots token now srv fuel all_repos o :
  token <> EmptyString ->
  fetch_all_repos srv fuel = Some (Ok all_repos) ->
  main token now srv fuel = Some (Ok o) ->
  forall i, nth i (weeklyCommits o) 0%nat =
    list_sum (map (fun ri => List.length
                     (filter (commit_in_slot now i)
                        (repo_commits srv fuel (cutoff_of now) ri))) all_repos).
Proof.
  intros Tk FA H i.
  destruct (main_auth_loop _ _ _ _ _ _ Tk FA H) as [st [-> A]].
  destruct (auth_loop_slots _ _ _ _ _ _ _ A eq_refl) as [_ [Hn _]].
  unfold finish; simpl. rewrite Hn.
  change (acc_weekly acc_init) with (repeat 0%nat WEEKS).
  rewrite nth_repeat. reflexivity.
Qed.

Lemma auth_weekly_slots_witness :
  weeklyCommits out_fixture = [0; 1; 0; 0; 0; 0; 0; 0; 0; 3; 0; 0]%nat /\
  forall i, nth i (weeklyCommits out_fixture) 0%nat =
    list_sum (map (fun ri => List.length
                     (filter (commit_in_slot now_ex i)
                        (repo_commits srv_fixture 5 (cutoff_of now_ex) ri)))
                  [repo_x; repo_y]).
Proof.
  split; [vm_compute; reflexivity|].
  apply (auth_weekly_slots "token" now_ex srv_fixture 5 [repo_x; repo_y]);
    [discriminate|vm_compute; reflexivity|vm_compute; reflexivity].
Defined.


(** With a credential, [pages] holds exactly one entry for each listed
    repository with Pages enabled that is not a fork and is not the
    user's own site, with the URL, description and language built from
    the listing, in some order. *)
Theorem auth_pages_exact token now srv fuel all_repos o :
  token <> EmptyString ->
  fetch_all_repos srv fuel = Some (Ok all_repos) ->
  main token now srv fuel = Some (Ok o) ->
  Permutation (pages o) (map site_of (filter has_site all_repos)).
Proof.
  intros Tk FA H.
  destruct (main_auth_loop _ _ _ _ _ _ Tk FA H) as [st [-> A]].
  unfold finish; simpl. rewrite sort_pages_perm.
  rewrite (auth_loop_pages_exact _ _ _ _ _ _ _ A). reflexivity.
Qed.

Lemma auth_pages_exact_witness :
  map site_name (pages out_pages) = ["alpha"; "Zeta"]%string /\
  Permutation (pages out_pages)
    (map site_of (filter has_site
       [repo_pages "Zeta" false; repo_pages "radaiko.github.io" false;
        repo_pages "forked" true; repo_pages "alpha" false])).
Proof.
  split; [vm_compute; reflexivity|].
  apply (auth_pages_exact "token" now_ex srv_pages 5);
    [discriminate|vm_compute; reflexivity|vm_compute; reflexivity].
Defined.
